(** * gibr: argument dispatch and the branch-creation workflow

    A shallow embedding of three source files of the gibr command-line
    tool:

    - [src/gibr/cli/group.py]  (module [Group]):  the two rewriting passes
      that [GibrGroup.parse_args] applies to the raw token list;
    - [src/gibr/git.py]        (module [Git]):    [create_and_push_branch]
      and its two helpers;
    - [src/gibr/cli/issues.py] (module [Issues]): the [issues] command.

    Python strings are [string]; lists are [list]; the command table (a
    [dict]) is a [gmap] keyed by command name.  Effectful code runs in a
    small trace-and-exception monad: every call that leaves the function
    (a notification, a git operation, a prompt, a write to the terminal)
    is recorded as an event, and a raised exception ends the computation. *)

From Stdlib Require Import String Ascii List Bool Arith Lia.
From stdpp Require Import base option list strings gmap.

Local Open Scope string_scope.
Local Open Scope list_scope.

(** ** Python built-ins used by the sources *)

Module Py.

(** [s.startswith(p)] *)
Definition startswith (p s : string) : bool := String.prefix p s.

(** [l.insert(i, x)] for [0 <= i <= len(l)]; beyond the end Python appends,
    and so does this. *)
Definition list_insert_at {A} (i : nat) (x : A) (l : list A) : list A :=
  take i l ++ x :: drop i l.

(** [x in l] for a list [l] of strings. *)
Definition mem (x : string) (l : list string) : bool := bool_decide (x ∈ l).

End Py.

(** ** [src/gibr/cli/group.py] *)

Module Group.
Import Py.

Definition GLOBAL_FLAGS : list string := ["--verbose"].

Section GibrGroup.

(** [str.isdigit], a built-in: true of the non-empty strings all of whose
    characters are digits, in Unicode's sense.  The group is modelled for
    every such predicate. *)
Variable isdigit : string -> bool.

(** The tracker classes live in [gibr/trackers/], outside the files at
    hand; their static predicates are parameters of the group. *)
Variable is_jira_issue : string -> bool.
Variable is_linear_issue : string -> bool.

(** [click.Command]; the group only ever tests the table for membership. *)
Variable Command : Type.

(** [self.commands] *)
Variable commands : gmap string Command.

Definition is_likely_non_digit_issue (arg : string) : bool :=
  is_jira_issue arg || is_linear_issue arg.

(** [handle_git_alias]: the value returned. *)
Definition handle_git_alias (args : list string) : list string :=
  match args with
  | a :: args' =>
      if bool_decide (a = "git") then
        let flags := filter (λ a, a ∈ GLOBAL_FLAGS) args' in
        let rest := filter (λ a, a ∉ GLOBAL_FLAGS) args' in
        flags ++ rest
      else args
  | [] => args
  end.

(** [arg in self.commands] *)
Definition is_command (arg : string) : bool :=
  bool_decide (is_Some (commands !! arg)).

(** The [for i, arg in enumerate(args)] loop of [handle_create_command],
    started at index [i] on the remaining items: it yields the index at
    which [args.insert(i, "create")] runs, or [None] when the loop ends
    (by [break] or by exhaustion) without inserting. *)
Fixpoint create_loop (i : nat) (items : list string) : option nat :=
  match items with
  | [] => None
  | arg :: items' =>
      if negb (startswith "--" arg) then
        if negb (is_command arg)
           && (isdigit arg || is_likely_non_digit_issue arg)
        then Some i
        else None
      else create_loop (S i) items'
  end.

Definition handle_create_command (args : list string) : list string :=
  match create_loop 0 args with
  | Some i => list_insert_at i "create" args
  | None => args
  end.

(** The rewriting done by [parse_args] before it hands the tokens to
    click's own parser. *)
Definition parse_args_rewrite (args : list string) : list string :=
  handle_create_command (handle_git_alias args).

End GibrGroup.

(** Modelled from the spec: [JiraTracker.is_jira_issue] is not among the
    files at hand; the design text gives its shape as
    UPPERCASE-LETTERS "-" DIGITS.  It is used for the worked examples only;
    the theorems hold for every pair of predicates. *)
Definition is_ascii_digit (c : ascii) : bool :=
  let n := nat_of_ascii c in Nat.leb 48 n && Nat.leb n 57.

Fixpoint all_digits (s : string) : bool :=
  match s with
  | EmptyString => true
  | String c s' => is_ascii_digit c && all_digits s'
  end.

(** What [str.isdigit] answers on a string of ASCII characters: at least one
    character, and every character one of 0-9.  The worked examples, whose
    tokens are ASCII, run with it. *)
Definition isdigit_ascii (s : string) : bool :=
  match s with
  | EmptyString => false
  | String _ _ => all_digits s
  end.

Definition is_upper (c : ascii) : bool :=
  let n := nat_of_ascii c in Nat.leb 65 n && Nat.leb n 90.

Fixpoint jira_key (seen_letter : bool) (s : string) : bool :=
  match s with
  | EmptyString => false
  | String c s' =>
      if is_upper c then jira_key true s'
      else if bool_decide (c = "-"%char) then seen_letter && isdigit_ascii s'
      else false
  end.

Definition is_jira_issue_model (s : string) : bool := jira_key false s.

Definition no_match (_ : string) : bool := false.

(** A command table holding the single command [issues], as the unit tests
    build it. *)
Definition issues_only : gmap string unit := {[ "issues" := tt ]}.

(** The second pass of a group with that table, the modelled Jira predicate
    and a second tracker that accepts nothing. *)
Definition create_cmd : list string -> list string :=
  handle_create_command isdigit_ascii is_jira_issue_model no_match unit
                        issues_only.

End Group.

(** ** Effects: events, exceptions and the monad the workflow runs in *)

Module Eff.

(** The exceptions that the modelled code raises, catches or lets through.
    [GitCommandError] carries [str(e)]; [TypeError] is what GitPython raises
    when the branch of a detached HEAD is asked for. *)
Inductive exn : Type :=
| InvalidGitRepositoryError
| GitCommandError (msg : string)
| ValueError (msg : string)
| TypeError
| Abort.

(** Every call that leaves the modelled functions, in program order. *)
Inductive event : Type :=
| EInfo (msg : string)
| ESuccess (msg : string)
| EWarning (msg : string)
| EError (msg : string)
| ELogDebug (msg : string)
| ERepoOpen
| ERepoClose
| ECreateHead (name : string)
| ECheckout (name : string)
| ERemote (name : string)
| EPush (refspec : string) (set_upstream : bool)
| ERaiseIfError
| EConfirm (text : string) (default : bool)
| EPrompt (text : string) (default : string)
| EEcho (text : string)
| EEchoViaPager (text : string)
| ESafeEcho (text : string).

Inductive outcome (A : Type) : Type :=
| Returned (a : A)
| Raised (e : exn).
Arguments Returned {A} a.
Arguments Raised {A} e.

(** A computation: the events it performed and how it ended. *)
Definition M (A : Type) : Type := list event * outcome A.

Definition ret {A} (a : A) : M A := ([], Returned a).

(** [after t m]: the computation [m], run once the events [t] have
    happened. *)
Definition after {A} (t : list event) (m : M A) : M A :=
  (t ++ fst m, snd m).

Definition bind {A B} (m : M A) (k : A -> M B) : M B :=
  match m with
  | (t, Returned a) => after t (k a)
  | (t, Raised e) => (t, Raised e)
  end.

Definition emit (ev : event) : M unit := ([ev], Returned tt).

Definition raise {A} (e : exn) : M A := ([], Raised e).

(** [try: m  except ...: h e]; [h e = None] when no clause matches [e],
    which then propagates. *)
Definition try_except {A} (m : M A) (h : exn -> option (M A)) : M A :=
  match m with
  | (t, Returned a) => (t, Returned a)
  | (t, Raised e) =>
      match h e with
      | Some k => after t k
      | None => (t, Raised e)
      end
  end.

Definition trace {A} (m : M A) : list event := fst m.
Definition result {A} (m : M A) : outcome A := snd m.

(** [when c m]: an [if c: m] statement without [else]. *)
Definition when (c : bool) (m : M unit) : M unit := if c then m else ret tt.

Declare Scope eff_scope.
Delimit Scope eff_scope with eff.
Notation "x <- m ;; k" := (bind m (fun x => k))
  (at level 100, m at next level, right associativity) : eff_scope.
Notation "m ;; k" := (bind m (fun _ => k))
  (at level 100, right associativity) : eff_scope.

(** *** [gibr.notify]

    Modelled from the spec: [gibr/notify.py] is not among the files at
    hand.  The design text gives four severity-tagged emit operations, of
    which [error] aborts the current command after emitting; the unit test
    of the module expects [click.Abort] from it. *)
Definition info (msg : string) : M unit := emit (EInfo msg).
Definition success (msg : string) : M unit := emit (ESuccess msg).
Definition warning (msg : string) : M unit := emit (EWarning msg).
Definition error (msg : string) : M unit :=
  bind (emit (EError msg)) (fun _ => raise Abort).

(** Classification of events, for counting. *)
Definition is_info (ev : event) : bool :=
  match ev with EInfo _ => true | _ => false end.
Definition is_success (ev : event) : bool :=
  match ev with ESuccess _ => true | _ => false end.
Definition is_warning (ev : event) : bool :=
  match ev with EWarning _ => true | _ => false end.
Definition is_error (ev : event) : bool :=
  match ev with EError _ => true | _ => false end.
Definition is_close (ev : event) : bool :=
  match ev with ERepoClose => true | _ => false end.
(** The calls that change the repository or the remote. *)
Definition is_mutation (ev : event) : bool :=
  match ev with
  | ECreateHead _ | ECheckout _ | EPush _ _ => true
  | _ => false
  end.
(** The calls that write to the terminal on behalf of a command. *)
Definition is_output (ev : event) : bool :=
  match ev with
  | EEcho _ | EEchoViaPager _ | ESafeEcho _ => true
  | _ => false
  end.

Definition count (p : event -> bool) (t : list event) : nat :=
  length (List.filter p t).

End Eff.

(** ** [src/gibr/git.py] *)

Module Git.
Import Py Eff.
Local Open Scope eff_scope.

(** Where HEAD points: at a branch (which may not have a commit yet), or
    straight at a commit. *)
Inductive Head : Type :=
| OnBranch (name : string)
| Detached.

(** What the workflow reads from a GitPython [Repo]: [repo.is_dirty()],
    [repo.head.is_valid()], where HEAD points, the names in [repo.heads],
    and the names of the configured remotes. *)
Record Repo : Type := mkRepo {
  is_dirty : bool;
  head_is_valid : bool;
  HEAD : Head;
  heads : list string;
  remotes : list string
}.

(** [repo.head.is_detached] *)
Definition head_is_detached (repo : Repo) : bool :=
  match HEAD repo with
  | Detached => true
  | OnBranch _ => false
  end.

(** [repo.active_branch.name]: GitPython answers with the branch HEAD points
    at, and raises [TypeError] when HEAD is detached. *)
Definition active_branch (repo : Repo) : M string :=
  match HEAD repo with
  | OnBranch name => ret name
  | Detached => raise TypeError
  end.

(** Everything outside the function that one invocation depends on: the
    repository found from the working directory (if any), what git answers
    to each mutating call ([Some msg]: the call raises [GitCommandError]
    whose text is [msg]), and what the user does at the two prompts
    ([None]: the user interrupts, or the input ends). *)
Record World : Type := mkWorld {
  repository : option Repo;
  create_head_error : string -> option string;
  checkout_error : string -> option string;
  push_error : string -> option string;
  push_result_error : string -> option string;
  confirm_reply : option bool;
  prompt_reply : option string
}.

Definition fail_with (err : option string) : M unit :=
  match err with
  | Some msg => raise (GitCommandError msg)
  | None => ret tt
  end.

Section Calls.
Variable w : World.

(** [Repo(".", search_parent_directories=True)] *)
Definition Repo_open : M Repo :=
  emit ERepoOpen ;;
  match repository w with
  | Some repo => ret repo
  | None => raise InvalidGitRepositoryError
  end.

(** [repo.close()] *)
Definition close : M unit := emit ERepoClose.

(** [repo.create_head(name)] *)
Definition create_head (name : string) : M unit :=
  emit (ECreateHead name) ;; fail_with (create_head_error w name).

(** [new_branch.checkout()] *)
Definition checkout (name : string) : M unit :=
  emit (ECheckout name) ;; fail_with (checkout_error w name).

(** [repo.remote(name=...)]: [ValueError] when there is no such remote. *)
Definition remote (repo : Repo) (name : string) : M unit :=
  emit (ERemote name) ;;
  if mem name (remotes repo) then ret tt
  else raise (ValueError ("Remote named '" +:+ name +:+ "' didn't exist")).

(** [origin.push(refspec=..., set_upstream=True)] *)
Definition push (refspec : string) (set_upstream : bool) : M unit :=
  emit (EPush refspec set_upstream) ;; fail_with (push_error w refspec).

(** [push_result.raise_if_error()] *)
Definition raise_if_error (refspec : string) : M unit :=
  emit ERaiseIfError ;; fail_with (push_result_error w refspec).

(** [click.confirm(text, default=...)]: click raises [click.Abort] when the
    user interrupts or the input ends. *)
Definition confirm (text : string) (default : bool) : M bool :=
  emit (EConfirm text default) ;;
  match confirm_reply w with
  | Some answer => ret answer
  | None => raise Abort
  end.

(** [click.prompt(text, default=..., show_default=True)]: likewise. *)
Definition prompt (text default : string) : M string :=
  emit (EPrompt text default) ;;
  match prompt_reply w with
  | Some answer => ret answer
  | None => raise Abort
  end.

Definition _validate_repo_state (repo : Repo) : M bool :=
  when (is_dirty repo)
    (warning "Working tree is dirty — uncommitted changes present.") ;;
  if negb (head_is_valid repo) then
    error "Please make an initial commit before using gibr." ;;
    ret false
  else
    when (head_is_detached repo)
      (warning "HEAD is detached (not on a branch).") ;;
    ret true.

Definition _handle_existing_branch
    (repo : Repo) (branch_name : string) (dry_run : bool)
  : M (option string) :=
  current_branch <- active_branch repo ;;
  if bool_decide (current_branch = branch_name) then
    warning ("Branch '" +:+ branch_name
             +:+ "' already exists and is checked out") ;;
    ret None
  else
    warning ("Branch '" +:+ branch_name +:+ "' already exists locally.") ;;
    if dry_run then
      info ("[DRY RUN] Would prompt to create branch with suffix "
            +:+ "since '" +:+ branch_name +:+ "' exists.") ;;
      ret None
    else
      yes <- confirm "Would you like to create a new branch with a suffix?"
                     true ;;
      if yes then
        suffix <- prompt "Enter suffix" "take2" ;;
        let new_name := branch_name +:+ "-" +:+ suffix in
        info ("Creating new branch '" +:+ new_name +:+ "' instead.") ;;
        ret (Some new_name)
      else
        info "Operation canceled by user." ;;
        ret None.

(** Lines 83-108 of [create_and_push_branch]: what runs once the branch
    name is settled. *)
Definition execute
    (repo : Repo) (branch_name current_branch : string)
    (is_push dry_run : bool) : M unit :=
  if dry_run then
    info ("[DRY RUN] Would create branch '" +:+ branch_name
          +:+ "' from " +:+ current_branch +:+ ".") ;;
    info ("[DRY RUN] Would checkout branch: " +:+ branch_name) ;;
    when is_push
      (info ("[DRY RUN] Would push branch '" +:+ branch_name
             +:+ "' to origin.")) ;;
    close
  else
    create_head branch_name ;;
    success ("Created branch '" +:+ branch_name
             +:+ "' from " +:+ current_branch +:+ ".") ;;
    checkout branch_name ;;
    success ("Checked out branch: " +:+ branch_name) ;;
    when is_push
      (let refspec := branch_name +:+ ":" +:+ branch_name in
       remote repo "origin" ;;
       push refspec true ;;
       raise_if_error refspec ;;
       success ("Pushed branch '" +:+ branch_name +:+ "' to origin.")) ;;
    close.

(** Lines 73-108: what follows the reading of the active branch. *)
Definition negotiate_from
    (repo : Repo) (branch_name current_branch : string)
    (is_push dry_run : bool) : M unit :=
  emit (ELogDebug ("Current branch: " +:+ current_branch)) ;;
  if mem branch_name (heads repo) then
    result <- _handle_existing_branch repo branch_name dry_run ;;
    match result with
    | None => close
    | Some branch_name => execute repo branch_name current_branch is_push dry_run
    end
  else execute repo branch_name current_branch is_push dry_run.

(** Lines 72-108: after validation has passed. *)
Definition negotiate
    (repo : Repo) (branch_name : string) (is_push dry_run : bool)
  : M unit :=
  current_branch <- active_branch repo ;;
  negotiate_from repo branch_name current_branch is_push dry_run.

(** The body of the [try] statement. *)
Definition try_body (branch_name : string) (is_push dry_run : bool)
  : M unit :=
  repo <- Repo_open ;;
  ok <- _validate_repo_state repo ;;
  if negb ok then close
  else negotiate repo branch_name is_push dry_run.

(** The two [except] clauses. *)
Definition handlers (e : exn) : option (M unit) :=
  match e with
  | InvalidGitRepositoryError =>
      Some (error "Not a git repository (or any of the parent directories).")
  | GitCommandError msg => Some (error ("Git command failed: " +:+ msg))
  | _ => None
  end.

Definition create_and_push_branch
    (branch_name : string) (is_push dry_run : bool) : M unit :=
  try_except (try_body branch_name is_push dry_run) handlers.

End Calls.

(** The name with which an invocation reaches lines 83-108, if it does:
    lines 72-81 and [_handle_existing_branch] read as a function of the
    repository state and of what the user does. *)
Definition settled_name
    (w : World) (repo : Repo) (branch_name : string) (dry_run : bool)
  : option string :=
  match HEAD repo with
  | Detached => None
  | OnBranch current_branch =>
      if mem branch_name (heads repo) then
        if bool_decide (current_branch = branch_name) then None
        else if dry_run then None
        else
          match confirm_reply w, prompt_reply w with
          | Some true, Some suffix => Some (branch_name +:+ "-" +:+ suffix)
          | _, _ => None
          end
      else Some branch_name
  end.

(** The text of the [GitCommandError] with which pushing [refspec] fails, if
    it does: raised by [origin.push] itself, or else by [raise_if_error]. *)
Definition push_failure (w : World) (refspec : string) : option string :=
  match push_error w refspec with
  | Some msg => Some msg
  | None => push_result_error w refspec
  end.

(** The events of a name conflict that ends in the new name [new_name]: the
    warning, the two prompts and the announcement of the name chosen. *)
Definition dialogue (repo : Repo) (branch_name new_name : string)
  : list event :=
  if mem branch_name (heads repo) then
    [EWarning ("Branch '" +:+ branch_name +:+ "' already exists locally.");
     EConfirm "Would you like to create a new branch with a suffix?" true;
     EPrompt "Enter suffix" "take2";
     EInfo ("Creating new branch '" +:+ new_name +:+ "' instead.")]
  else [].

(** The advisories of [_validate_repo_state], as events. *)
Definition dirty_warning (repo : Repo) : list event :=
  if is_dirty repo
  then [EWarning "Working tree is dirty — uncommitted changes present."]
  else [].

Definition detached_warning (repo : Repo) : list event :=
  if head_is_detached repo
  then [EWarning "HEAD is detached (not on a branch)."]
  else [].

Definition preflight (repo : Repo) : list event :=
  dirty_warning repo ++ detached_warning repo.

(** Worked repository states, after the fixtures of [tests/test_git.py]. *)
Definition clean_main (hs : list string) : Repo :=
  mkRepo false true (OnBranch "main") hs ["origin"].

Definition never : string -> option string := fun _ => None.
Definition always (msg : string) : string -> option string :=
  fun _ => Some msg.

(** Every git call succeeds; the user accepts the suffix [v2]. *)
Definition world_of (repo : Repo) : World :=
  mkWorld (Some repo) never never never never (Some true) (Some "v2").

(** The working directory is not inside a git work tree. *)
Definition not_a_repository : World :=
  mkWorld None never never never never (Some true) (Some "v2").

(** [git branch] fails, as in [test_create_branch_git_command_error]. *)
Definition create_fails : World :=
  mkWorld (Some (clean_main [])) (always "Cmd('git') failed") never never never
          (Some true) (Some "v2").

(** [git push] fails, as in
    [test_create_branch_git_command_error_during_push]. *)
Definition push_fails : World :=
  mkWorld (Some (clean_main [])) never never (always "Cmd('git') failed") never
          (Some true) (Some "v2").

(** A repository without any commit: HEAD points at a branch yet to be
    born. *)
Definition no_commits : Repo :=
  mkRepo false false (OnBranch "main") [] ["origin"].

(** A clean work tree with a detached HEAD. *)
Definition detached : Repo := mkRepo false true Detached ["main"] ["origin"].

(** Uncommitted changes on the checked-out branch [b]. *)
Definition dirty_on (b : string) : Repo :=
  mkRepo true true (OnBranch b) ["main"; b] ["origin"].

End Git.

(** ** [src/gibr/cli/issues.py] *)

Module Issues.
Import Py Eff.
Local Open Scope eff_scope.

(** [gibr.issue.Issue], with the fields the command reads. *)
Record Issue : Type := mkIssue {
  id : string;
  type : string;
  title : string;
  assignee : option string
}.

Section Command.

(** [json.dumps([asdict(issue) for issue in issues], indent=4)] and
    [tabulate(table, headers=[...], tablefmt="github")]: library
    renderers, taken as parameters. *)
Variable json_dumps : list Issue -> string.
Variable tabulate : list (string * string * string * option string) -> string.

(** [issues(ctx, output_json)], given what [tracker.list_issues()]
    returns and whether [sys.stdout.isatty()]. *)
Definition issues
    (list_issues : list Issue) (output_json : bool) (isatty : bool)
  : M unit :=
  let issues := list_issues in
  match issues with
  | [] => warning "No open issues found."
  | _ :: _ =>
      let table :=
        map (fun issue => (id issue, type issue, title issue, assignee issue))
            issues in
      if output_json then emit (EEcho (json_dumps issues))
      else
        let output := tabulate table in
        if isatty then emit (EEchoViaPager output)
        else emit (ESafeEcho output)
  end.

End Command.

End Issues.

(** ** Further classification of events *)

Module Obs.
Import Eff.

(** The calls that wait for the user at the terminal. *)
Definition is_prompt (ev : event) : bool :=
  match ev with
  | EConfirm _ _ | EPrompt _ _ => true
  | _ => false
  end.

(** The calls that involve the remote. *)
Definition is_remote_call (ev : event) : bool :=
  match ev with
  | ERemote _ | EPush _ _ | ERaiseIfError => true
  | _ => false
  end.

(** Modelled from the spec: [gibr/notify.py] is not among the files at
    hand.  Its unit test pins [info], [success], [warning] and [error] to
    one call of [click.secho(text, fg=...)] each, with no [err] argument,
    and click then writes the text to standard output.  So the calls that
    put text on standard output are the four notifications, [click.echo],
    [click.echo_via_pager] and [safe_echo]. *)
Definition writes_stdout (ev : event) : bool :=
  match ev with
  | EInfo _ | ESuccess _ | EWarning _ | EError _ => true
  | EEcho _ | EEchoViaPager _ | ESafeEcho _ => true
  | _ => false
  end.

(** The repository state [repo] with its dirty flag set to [d], and the
    world [w] seen from a given repository. *)
Definition with_dirty (d : bool) (repo : Git.Repo) : Git.Repo :=
  Git.mkRepo d (Git.head_is_valid repo) (Git.HEAD repo)
             (Git.heads repo) (Git.remotes repo).

Definition in_repository (repo : Git.Repo) (w : Git.World) : Git.World :=
  Git.mkWorld (Some repo) (Git.create_head_error w) (Git.checkout_error w)
              (Git.push_error w) (Git.push_result_error w)
              (Git.confirm_reply w) (Git.prompt_reply w).

End Obs.

(** * Properties of the argument dispatcher *)

Module GroupFacts.
Import Py Group.

Section Passes.
Variable isdigit : string -> bool.
Variable is_jira_issue : string -> bool.
Variable is_linear_issue : string -> bool.
Variable Command : Type.
Variable commands : gmap string Command.

Local Abbreviation create_loop :=
  (create_loop isdigit is_jira_issue is_linear_issue Command commands).
Local Abbreviation handle_create_command :=
  (handle_create_command isdigit is_jira_issue is_linear_issue Command
                         commands).
Local Abbreviation is_command := (is_command Command commands).
Local Abbreviation is_likely :=
  (is_likely_non_digit_issue is_jira_issue is_linear_issue).

(** A token is a flag for the second pass when it starts with "--". *)
Local Abbreviation flag a := (startswith "--" a = true).

Lemma list_insert_at_app {A} (l k : list A) (x : A) :
  list_insert_at (length l) x (l ++ k) = l ++ x :: k.
Proof.
  unfold list_insert_at.
  by rewrite take_app_length, drop_app_length.
Qed.

Lemma list_insert_at_sublist {A} (i : nat) (x : A) (l : list A) :
  sublist l (list_insert_at i x l).
Proof.
  unfold list_insert_at.
  rewrite <- (take_drop i l) at 1.
  apply sublist_app; [done |].
  by apply sublist_cons.
Qed.

Lemma list_insert_at_length {A} (i : nat) (x : A) (l : list A) :
  length (list_insert_at i x l) = S (length l).
Proof.
  unfold list_insert_at.
  rewrite length_app. cbn [length].
  rewrite <- (take_drop i l) at 3. rewrite length_app. lia.
Qed.

(** The loop runs through a prefix of flags without deciding anything. *)
Lemma create_loop_flags (flags items : list string) (i : nat) :
  Forall (λ a, flag a) flags →
  create_loop i (flags ++ items) = create_loop (i + length flags) items.
Proof.
  intros Hfl. revert i.
  induction Hfl as [| a flags Ha _ IH]; intros i; cbn [app length].
  - by rewrite Nat.add_0_r.
  - cbn [Group.create_loop]. rewrite Ha. cbn [negb].
    rewrite IH. f_equal. lia.
Qed.

(** ... and falls off the end of a list made of flags only. *)
Lemma create_loop_all_flags (args : list string) (i : nat) :
  Forall (λ a, flag a) args → create_loop i args = None.
Proof.
  intros Hfl.
  rewrite <- (app_nil_r args).
  by rewrite create_loop_flags.
Qed.

(** At the first token that is not a flag the loop decides and stops. *)
Lemma create_loop_first (flags rest : list string) (t : string) (i : nat) :
  Forall (λ a, flag a) flags →
  startswith "--" t = false →
  create_loop i (flags ++ t :: rest)
  = if negb (is_command t)
       && (isdigit t || is_likely t)
    then Some (i + length flags) else None.
Proof.
  intros Hfl Ht.
  rewrite create_loop_flags by done.
  cbn [Group.create_loop]. by rewrite Ht.
Qed.

(** Where the loop inserts, if it does. *)
Lemma create_loop_bound (items : list string) (i j : nat) :
  create_loop i items = Some j → (i ≤ j < i + length items)%nat.
Proof.
  revert i. induction items as [| a items IH]; intros i; cbn [Group.create_loop length].
  - discriminate.
  - destruct (startswith "--" a); cbn [negb].
    + intros H. apply IH in H. lia.
    + destruct (_ && _); [| discriminate].
      intros [= <-]. lia.
Qed.

(** C6. The implicit-create pass looks at the first token that does not
    start with "--" and at nothing else.  A list without such a token
    comes back unchanged.  Otherwise, with [flags] the tokens before it,
    [t] the token and [rest] what follows: a registered subcommand leaves
    the list unchanged; a token that is all digits or that either tracker
    predicate accepts gets "create" inserted immediately before it; any
    other token leaves the list unchanged.  The result is never more than
    one token longer than the input. *)
Theorem handle_create_command_first_nonflag (args : list string) :
  (Forall (λ a, flag a) args → handle_create_command args = args)
  ∧ (∀ flags t rest,
       args = flags ++ t :: rest →
       Forall (λ a, flag a) flags →
       startswith "--" t = false →
       (is_Some (commands !! t) → handle_create_command args = args)
       ∧ (commands !! t = None →
          isdigit t || is_jira_issue t || is_linear_issue t = true →
          handle_create_command args = flags ++ "create" :: t :: rest)
       ∧ (commands !! t = None →
          isdigit t || is_jira_issue t || is_linear_issue t = false →
          handle_create_command args = args))
  ∧ (length (handle_create_command args) ≤ S (length args))%nat.
Proof.
  split; [| split].
  - intros Hfl. unfold Group.handle_create_command.
    by rewrite create_loop_all_flags.
  - intros flags t rest -> Hfl Ht.
    unfold Group.handle_create_command.
    rewrite create_loop_first by done.
    unfold Group.is_likely_non_digit_issue, Group.is_command.
    rewrite orb_assoc.
    split; [| split].
    + intros Hin. by rewrite bool_decide_eq_true_2.
    + intros Hnone Hlike.
      rewrite bool_decide_eq_false_2 by (rewrite Hnone; by intros [? ?]).
      rewrite Hlike. cbn [negb andb].
      apply list_insert_at_app.
    + intros _ Hlike. rewrite Hlike. by rewrite andb_false_r.
  - unfold Group.handle_create_command.
    destruct (create_loop 0 args) as [i |]; [| lia].
    by rewrite list_insert_at_length.
Qed.

(** C9. The output of the implicit-create pass keeps every input token,
    in the input order: the input is a subsequence of the output, and the
    output is either the input itself or the input with the one token
    "create" put in at some position. *)
Theorem handle_create_command_only_inserts (args : list string) :
  sublist args (handle_create_command args)
  ∧ (handle_create_command args = args
     ∨ ∃ i, (i < length args)%nat
            ∧ handle_create_command args
              = take i args ++ "create" :: drop i args).
Proof.
  unfold Group.handle_create_command.
  destruct (create_loop 0 args) as [i |] eqn:Hloop.
  - split; [apply list_insert_at_sublist |].
    right. exists i. split; [| done].
    apply create_loop_bound in Hloop. lia.
  - split; [done | by left].
Qed.

End Passes.

(** C7. The alias-routing pass returns its argument unchanged when the
    first token is not "git" (or there is none).  On "git" followed by
    [rest] it returns the tokens of [rest], with the "git" dropped, split
    as the global flags followed by all other tokens: each of the two
    groups is a subsequence of [rest], so it keeps the order the tokens had,
    and together they are a rearrangement of [rest]. *)
Theorem handle_git_alias_partition :
  (∀ args : list string, head args ≠ Some "git" → handle_git_alias args = args)
  ∧ (∀ rest : list string,
       ∃ flags others,
         handle_git_alias ("git" :: rest) = flags ++ others
         ∧ Forall (λ a, a ∈ GLOBAL_FLAGS) flags
         ∧ Forall (λ a, a ∉ GLOBAL_FLAGS) others
         ∧ sublist flags rest
         ∧ sublist others rest
         ∧ flags ++ others ≡ₚ rest).
Proof.
  split.
  - intros [| a args] Hhd; [done |].
    cbn [handle_git_alias]. case_bool_decide as Ha; [| done].
    subst a. by destruct Hhd.
  - intros rest.
    exists (filter (λ a, a ∈ GLOBAL_FLAGS) rest),
           (filter (λ a, a ∉ GLOBAL_FLAGS) rest).
    split; [done |].
    split; [apply Forall_forall; intros a Ha; by apply list_elem_of_filter in Ha as [? _] |].
    split; [apply Forall_forall; intros a Ha; by apply list_elem_of_filter in Ha as [? _] |].
    split; [apply sublist_filter |].
    split; [apply sublist_filter |].
    apply filter_app_complement.
Qed.

(** The cases of [tests/test_group.py], and two more. *)

Example create_numeric : create_cmd ["123"] = ["create"; "123"].
Proof. vm_compute. reflexivity. Qed.

Example create_after_flag :
  create_cmd ["--verbose"; "123"] = ["--verbose"; "create"; "123"].
Proof. vm_compute. reflexivity. Qed.

Example create_issue_key : create_cmd ["ABC-99"] = ["create"; "ABC-99"].
Proof. vm_compute. reflexivity. Qed.

Example create_keeps_command : create_cmd ["issues"; "123"] = ["issues"; "123"].
Proof. vm_compute. reflexivity. Qed.

Example create_only_first : create_cmd ["foo"; "123"] = ["foo"; "123"].
Proof. vm_compute. reflexivity. Qed.

Example alias_moves_verbose :
  handle_git_alias ["git"; "issues"; "--verbose"; "--json"]
  = ["--verbose"; "issues"; "--json"].
Proof. vm_compute. reflexivity. Qed.

Example alias_other_unchanged :
  handle_git_alias ["gibr"; "--verbose"; "create"; "123"]
  = ["gibr"; "--verbose"; "create"; "123"].
Proof. vm_compute. reflexivity. Qed.

Example create_no_tokens : create_cmd [] = [].
Proof. vm_compute. reflexivity. Qed.

Example create_flags_only : create_cmd ["--verbose"; "--json"] = ["--verbose"; "--json"].
Proof. vm_compute. reflexivity. Qed.

Example alias_then_create :
  parse_args_rewrite isdigit_ascii is_jira_issue_model no_match unit issues_only
    ["git"; "42"; "--verbose"]
  = ["--verbose"; "create"; "42"].
Proof. vm_compute. reflexivity. Qed.

Lemma handle_create_command_first_nonflag_witness :
  create_cmd ["--verbose"; "123"] = ["--verbose"; "create"; "123"].
Proof.
  destruct (handle_create_command_first_nonflag
              isdigit_ascii is_jira_issue_model no_match unit issues_only
              ["--verbose"; "123"]) as (_ & Hfirst & _).
  destruct (Hfirst ["--verbose"] "123" [] eq_refl) as (_ & Hinsert & _).
  - repeat constructor.
  - reflexivity.
  - apply Hinsert; vm_compute; reflexivity.
Defined.

Lemma handle_git_alias_partition_witness :
  handle_git_alias ["gibr"; "--verbose"; "create"; "123"]
  = ["gibr"; "--verbose"; "create"; "123"].
Proof.
  apply (proj1 handle_git_alias_partition).
  cbn [head]. intros [= H].
Defined.

End GroupFacts.

(** * Properties of the branch-creation workflow *)

Module GitFacts.
Import Py Eff Git.
Local Open Scope eff_scope.

(** Messages are built by concatenation around variable names; keep the
    concatenations folded while computing with the monad. *)
Local Arguments String.append : simpl never.
Local Arguments mem : simpl never.

(** ** The monad *)

Lemma after_after {A} (t t' : list event) (m : M A) :
  after t (after t' m) = after (t ++ t') m.
Proof. unfold after. cbn. by rewrite app_assoc. Qed.

Lemma after_nil {A} (m : M A) : after [] m = m.
Proof. by destruct m. Qed.

Lemma bind_returned {A B} (t : list event) (a : A) (k : A -> M B) :
  bind (t, Returned a) k = after t (k a).
Proof. done. Qed.

Lemma bind_raised {A B} (t : list event) (e : exn) (k : A -> M B) :
  bind (t, Raised e) k = (t, Raised e).
Proof. done. Qed.

Lemma bind_ret {A B} (a : A) (k : A -> M B) : bind (ret a) k = k a.
Proof. unfold ret. rewrite bind_returned. apply after_nil. Qed.

Lemma bind_emit {B} (ev : event) (k : unit -> M B) :
  bind (emit ev) k = after [ev] (k tt).
Proof. done. Qed.

Lemma bind_raise {A B} (e : exn) (k : A -> M B) :
  bind (raise e) k = raise e.
Proof. done. Qed.

Lemma bind_after {A B} (t : list event) (m : M A) (k : A -> M B) :
  bind (after t m) k = after t (bind m k).
Proof.
  destruct m as [t' [a | e]]; unfold after; cbn [bind fst snd].
  - unfold after. cbn [fst snd]. by rewrite app_assoc.
  - done.
Qed.

Lemma bind_bind {A B C} (m : M A) (k : A -> M B) (k' : B -> M C) :
  bind (bind m k) k' = bind m (fun x => bind (k x) k').
Proof.
  destruct m as [t [a | e]]; cbn [bind]; [| done].
  apply bind_after.
Qed.

Lemma try_except_after {A} (t : list event) (m : M A) h :
  try_except (after t m) h = after t (try_except m h).
Proof.
  destruct m as [t' [a | e]]; unfold after at 1; cbn [try_except fst snd].
  - done.
  - destruct (h e) as [k |]; [| done].
    by rewrite after_after.
Qed.

Lemma trace_after {A} (t : list event) (m : M A) :
  trace (after t m) = t ++ trace m.
Proof. done. Qed.

Lemma result_after {A} (t : list event) (m : M A) :
  result (after t m) = result m.
Proof. done. Qed.

Lemma count_app (p : event -> bool) (t t' : list event) :
  count p (t ++ t') = count p t + count p t'.
Proof. unfold count. by rewrite List.filter_app, length_app. Qed.

Lemma count_cons (p : event -> bool) (ev : event) (t : list event) :
  count p (ev :: t) = (if p ev then 1 else 0) + count p t.
Proof. unfold count. cbn [List.filter]. by destruct (p ev). Qed.

Lemma count_nil (p : event -> bool) : count p [] = 0.
Proof. done. Qed.

(** Push a count through a trace given by its pieces. *)
Ltac count_pieces :=
  rewrite ?trace_after, ?result_after;
  cbn [trace result fst snd];
  repeat (rewrite ?count_app, ?count_cons, ?count_nil);
  cbn [is_info is_success is_warning is_error is_close is_mutation is_output].

(** ** Validation *)

Lemma validate_valid (repo : Repo) :
  head_is_valid repo = true →
  _validate_repo_state repo = (preflight repo, Returned true).
Proof.
  intros Hv. unfold _validate_repo_state, preflight, dirty_warning,
    detached_warning. rewrite Hv.
  by destruct (is_dirty repo), (head_is_detached repo).
Qed.

Lemma validate_invalid (repo : Repo) :
  head_is_valid repo = false →
  _validate_repo_state repo
  = (dirty_warning repo
       ++ [EError "Please make an initial commit before using gibr."],
     Raised Abort).
Proof.
  intros Hv. unfold _validate_repo_state, dirty_warning. rewrite Hv.
  by destruct (is_dirty repo).
Qed.

(** On a branch there is no detached-HEAD advisory. *)
Lemma preflight_on_branch (repo : Repo) cur :
  HEAD repo = OnBranch cur → preflight repo = dirty_warning repo.
Proof.
  intros Hhead. unfold preflight, detached_warning, head_is_detached.
  rewrite Hhead. apply app_nil_r.
Qed.

(** Once the handle is there and HEAD is valid, the [try] body is the
    pre-flight advisories followed by lines 72-108. *)
Lemma try_body_valid (w : World) (repo : Repo) name is_push dry_run :
  repository w = Some repo →
  head_is_valid repo = true →
  try_body w name is_push dry_run
  = after (ERepoOpen :: preflight repo) (negotiate w repo name is_push dry_run).
Proof.
  intros Hrepo Hv. unfold try_body, Repo_open. rewrite Hrepo.
  rewrite bind_bind, bind_emit, bind_ret, validate_valid by done.
  rewrite bind_returned, after_after. done.
Qed.

(** ** Name negotiation *)

Ltac unfold_calls :=
  unfold execute, _handle_existing_branch, create_head, checkout, remote,
    push, raise_if_error, confirm, prompt, close, fail_with, when,
    info, success, warning, error.

Lemma negotiate_on_branch (w : World) (repo : Repo) name cur is_push dry_run :
  HEAD repo = OnBranch cur →
  negotiate w repo name is_push dry_run
  = negotiate_from w repo name cur is_push dry_run.
Proof.
  intros Hhead. unfold negotiate, active_branch. rewrite Hhead.
  by rewrite bind_ret.
Qed.

(** Line 72 on a detached HEAD. *)
Lemma negotiate_detached (w : World) (repo : Repo) name is_push dry_run :
  HEAD repo = Detached →
  negotiate w repo name is_push dry_run = ([], Raised TypeError).
Proof. intros Hhead. unfold negotiate, active_branch. by rewrite Hhead. Qed.

(** When a name is settled, lines 73-81 only talk, and lines 83-108 run
    with that name. *)
Lemma negotiate_settled (w : World) (repo : Repo) name cur is_push dry_run n :
  HEAD repo = OnBranch cur →
  settled_name w repo name dry_run = Some n →
  negotiate_from w repo name cur is_push dry_run
  = after (ELogDebug ("Current branch: " +:+ cur) :: dialogue repo name n)
          (execute w repo n cur is_push dry_run).
Proof.
  intros Hhead. unfold settled_name, negotiate_from, dialogue.
  rewrite Hhead, bind_emit.
  destruct (mem name (heads repo)); [| by intros [= <-]].
  unfold _handle_existing_branch, active_branch. rewrite Hhead, bind_ret.
  destruct (bool_decide (cur = name)); [done |].
  destruct dry_run; [done |].
  unfold confirm, prompt, warning, info.
  destruct (confirm_reply w) as [[|] |]; [| done | done].
  destruct (prompt_reply w) as [suffix |]; [| done].
  intros [= <-].
  repeat (rewrite ?bind_bind, ?bind_emit, ?bind_ret, ?after_after).
  done.
Qed.

(** ** Lines 83-108 *)

Lemma execute_dry_run (w : World) (repo : Repo) n cur is_push :
  execute w repo n cur is_push true
  = ([EInfo ("[DRY RUN] Would create branch '" +:+ n
             +:+ "' from " +:+ cur +:+ ".");
      EInfo ("[DRY RUN] Would checkout branch: " +:+ n)]
     ++ (if is_push
         then [EInfo ("[DRY RUN] Would push branch '" +:+ n +:+ "' to origin.")]
         else [])
     ++ [ERepoClose],
     Returned tt).
Proof. unfold_calls. by destruct is_push. Qed.

(** Creation and checkout succeed, the remote is there, pushing fails. *)
Lemma execute_push_failure (w : World) (repo : Repo) n cur msg :
  create_head_error w n = None →
  checkout_error w n = None →
  "origin" ∈ remotes repo →
  push_failure w (n +:+ ":" +:+ n) = Some msg →
  execute w repo n cur true false
  = ([ECreateHead n;
      ESuccess ("Created branch '" +:+ n +:+ "' from " +:+ cur +:+ ".");
      ECheckout n;
      ESuccess ("Checked out branch: " +:+ n);
      ERemote "origin";
      EPush (n +:+ ":" +:+ n) true]
     ++ (match push_error w (n +:+ ":" +:+ n) with
         | Some _ => []
         | None => [ERaiseIfError]
         end),
     Raised (GitCommandError msg)).
Proof.
  intros Hcreate Hcheckout Horigin Hpush.
  unfold push_failure in Hpush. unfold_calls.
  rewrite Hcreate, Hcheckout.
  unfold mem. rewrite bool_decide_eq_true_2 by done.
  destruct (push_error w _) as [msg' |].
  - injection Hpush as ->. by cbn.
  - rewrite Hpush. by cbn.
Qed.

(** Lines 83-108 close the handle exactly when they run to their end. *)
Lemma execute_close (w : World) (repo : Repo) n cur is_push dry_run :
  count is_close (trace (execute w repo n cur is_push dry_run))
  = match result (execute w repo n cur is_push dry_run) with
    | Returned _ => 1
    | Raised _ => 0
    end.
Proof.
  destruct dry_run; [rewrite execute_dry_run; by destruct is_push |].
  unfold_calls. unfold mem.
  destruct (create_head_error w n); [done |].
  destruct (checkout_error w n); [done |].
  destruct is_push; [| done].
  destruct (bool_decide _); [| done].
  destruct (push_error w _); [done |].
  by destruct (push_result_error w _).
Qed.

(** What the two [except] clauses make of an outcome. *)
Lemma handlers_close (m : M unit) :
  count is_close (trace (try_except m handlers)) = count is_close (trace m).
Proof.
  destruct m as [t [[] | e]]; [done |].
  destruct e; cbn [try_except handlers]; try done.
  all: unfold error; rewrite bind_emit; cbn [after trace fst snd raise];
    rewrite count_app; cbn; lia.
Qed.

Lemma handlers_result (m : M unit) :
  result (try_except m handlers)
  = match result m with
    | Returned a => Returned a
    | Raised (ValueError msg) => Raised (ValueError msg)
    | Raised TypeError => Raised TypeError
    | Raised _ => Raised Abort
    end.
Proof. destruct m as [t [[] | []]]; done. Qed.

(** ** The whole function *)

Lemma dirty_warning_quiet (repo : Repo) :
  count is_close (dirty_warning repo) = 0
  ∧ count is_mutation (dirty_warning repo) = 0
  ∧ count is_info (dirty_warning repo) = 0
  ∧ count is_success (dirty_warning repo) = 0
  ∧ count is_error (dirty_warning repo) = 0.
Proof. unfold dirty_warning. by destruct (is_dirty repo). Qed.

Lemma dialogue_quiet (repo : Repo) name n :
  count is_close (dialogue repo name n) = 0
  ∧ count is_success (dialogue repo name n) = 0
  ∧ count is_error (dialogue repo name n) = 0.
Proof. unfold dialogue. by destruct (mem name (heads repo)). Qed.

Lemma create_and_push_branch_none (w : World) name is_push dry_run :
  repository w = None →
  create_and_push_branch w name is_push dry_run
  = ([ERepoOpen;
      EError "Not a git repository (or any of the parent directories)."],
     Raised Abort).
Proof.
  intros Hnone. unfold create_and_push_branch, try_body, Repo_open.
  by rewrite Hnone.
Qed.

Lemma create_and_push_branch_invalid (w : World) (repo : Repo) name is_push dry_run :
  repository w = Some repo →
  head_is_valid repo = false →
  create_and_push_branch w name is_push dry_run
  = (ERepoOpen :: dirty_warning repo
       ++ [EError "Please make an initial commit before using gibr."],
     Raised Abort).
Proof.
  intros Hrepo Hv. unfold create_and_push_branch, try_body, Repo_open.
  rewrite Hrepo, bind_bind, bind_emit, bind_ret, validate_invalid by done.
  done.
Qed.

(** A valid but detached HEAD: the advisories, then the [TypeError] of line
    72, which neither [except] clause catches. *)
Lemma create_and_push_branch_detached (w : World) (repo : Repo) name is_push dry_run :
  repository w = Some repo →
  head_is_valid repo = true →
  HEAD repo = Detached →
  create_and_push_branch w name is_push dry_run
  = (ERepoOpen :: dirty_warning repo
       ++ [EWarning "HEAD is detached (not on a branch)."],
     Raised TypeError).
Proof.
  intros Hrepo Hv Hhead. unfold create_and_push_branch.
  rewrite (try_body_valid w repo), negotiate_detached by done.
  unfold preflight, detached_warning, head_is_detached. rewrite Hhead.
  unfold after. cbn [try_except handlers fst snd].
  by rewrite app_nil_r.
Qed.

Lemma create_and_push_branch_on_branch
    (w : World) (repo : Repo) name cur is_push dry_run :
  repository w = Some repo →
  head_is_valid repo = true →
  HEAD repo = OnBranch cur →
  create_and_push_branch w name is_push dry_run
  = after (ERepoOpen :: dirty_warning repo)
          (try_except (negotiate_from w repo name cur is_push dry_run)
                      handlers).
Proof.
  intros Hrepo Hv Hhead. unfold create_and_push_branch.
  rewrite (try_body_valid w repo), (negotiate_on_branch w repo name cur),
    (preflight_on_branch repo cur), try_except_after by done.
  done.
Qed.

Lemma create_and_push_branch_settled
    (w : World) (repo : Repo) name cur is_push dry_run n :
  repository w = Some repo →
  head_is_valid repo = true →
  HEAD repo = OnBranch cur →
  settled_name w repo name dry_run = Some n →
  create_and_push_branch w name is_push dry_run
  = after (ERepoOpen :: dirty_warning repo
             ++ ELogDebug ("Current branch: " +:+ cur)
             :: dialogue repo name n)
          (try_except (execute w repo n cur is_push dry_run) handlers).
Proof.
  intros Hrepo Hv Hhead Hn.
  rewrite (create_and_push_branch_on_branch w repo name cur) by done.
  rewrite (negotiate_settled w repo name cur is_push dry_run n) by done.
  by rewrite try_except_after, after_after.
Qed.

(** The ways an invocation can go: no repository, invalid HEAD, detached
    HEAD, on a branch with no name settled, on a branch with a name
    settled. *)
Ltac workflow_cases w name is_push dry_run :=
  let repo := fresh "repo" in
  let cur := fresh "cur" in
  let n := fresh "n" in
  let Hrepo := fresh "Hrepo" in
  let Hv := fresh "Hv" in
  let Hhead := fresh "Hhead" in
  let Hn := fresh "Hn" in
  destruct (repository w) as [repo |] eqn:Hrepo;
  [ destruct (head_is_valid repo) eqn:Hv;
    [ destruct (HEAD repo) as [cur |] eqn:Hhead;
      [ destruct (settled_name w repo name dry_run) as [n |] eqn:Hn;
        [ rewrite (create_and_push_branch_settled
                     w repo name cur is_push dry_run n Hrepo Hv Hhead Hn)
        | rewrite (create_and_push_branch_on_branch
                     w repo name cur is_push dry_run Hrepo Hv Hhead);
          unfold settled_name in Hn; rewrite Hhead in Hn;
          unfold negotiate_from, _handle_existing_branch, active_branch;
          rewrite Hhead, bind_ret;
          unfold warning, info, confirm, prompt, close;
          revert Hn;
          destruct (mem name (heads repo)); [| discriminate];
          destruct (bool_decide (cur = name));
          [ intros _
          | destruct dry_run;
            [ intros _
            | destruct (confirm_reply w) as [[|] |];
              [ destruct (prompt_reply w); [discriminate | intros _]
              | intros _
              | intros _ ] ] ] ]
      | rewrite (create_and_push_branch_detached
                   w repo name is_push dry_run Hrepo Hv Hhead) ]
    | rewrite (create_and_push_branch_invalid
                 w repo name is_push dry_run Hrepo Hv) ]
  | rewrite (create_and_push_branch_none w name is_push dry_run Hrepo) ].

(** Every way lines 83-108 can go. *)
Ltac execute_cases :=
  unfold_calls; unfold mem;
  repeat match goal with
         | |- context [if ?b then _ else _] => is_var b; destruct b
         end;
  repeat match goal with
         | |- context [create_head_error ?w ?n] =>
             destruct (create_head_error w n) eqn:?
         | |- context [checkout_error ?w ?n] =>
             destruct (checkout_error w n) eqn:?
         | |- context [push_error ?w ?n] =>
             destruct (push_error w n) eqn:?
         | |- context [push_result_error ?w ?n] =>
             destruct (push_result_error w n) eqn:?
         | |- context [bool_decide ?P] => destruct (bool_decide P) eqn:?
         end;
  cbn.

(** The events before lines 83-108, made explicit. *)
Ltac quiet_pieces repo name :=
  unfold dirty_warning, dialogue;
  destruct (is_dirty repo);
  try destruct (mem name (heads repo));
  cbn.

(** The handle is closed once when the function returns, and not at all
    when it raises. *)
Lemma close_iff_returned (w : World) (repo : Repo) name is_push dry_run :
  repository w = Some repo →
  count is_close (trace (create_and_push_branch w name is_push dry_run))
  = match result (create_and_push_branch w name is_push dry_run) with
    | Returned _ => 1
    | Raised _ => 0
    end.
Proof.
  intros Hw. workflow_cases w name is_push dry_run; try discriminate.
  - rewrite trace_after, result_after, count_app, handlers_close,
      handlers_result, execute_close.
    count_pieces.
    destruct (dirty_warning_quiet repo0) as (-> & _).
    destruct (dialogue_quiet repo0 name n) as (-> & _).
    by destruct (result (execute _ _ _ _ _ _)) as [[] | []].
  - quiet_pieces repo0 name; done.
  - quiet_pieces repo0 name; done.
  - quiet_pieces repo0 name; done.
  - quiet_pieces repo0 name; done.
  - quiet_pieces repo0 name; done.
  - quiet_pieces repo0 name; done.
  - quiet_pieces repo0 name; done.
Qed.

(** ** Release of the repository handle *)

(** C1 (the handle is to be released exactly once on every exit path, the
    failing ones included).  When [git branch] fails in a clean repository
    on [main], the function reports the failure and aborts without a single
    [repo.close()]; the same happens in a repository without commits, where
    the abort comes from inside the validation. *)
Theorem handle_left_open_on_failure :
  create_and_push_branch create_fails "feature/error" false false
  = ([ERepoOpen;
      ELogDebug "Current branch: main";
      ECreateHead "feature/error";
      EError "Git command failed: Cmd('git') failed"],
     Raised Abort)
  ∧ count is_close
      (trace (create_and_push_branch create_fails "feature/error" false false))
    = 0
  ∧ count is_close
      (trace (create_and_push_branch (world_of no_commits) "feature/test"
                                     true true))
    = 0.
Proof. by vm_compute. Qed.

(** ** The two failure kinds *)

(** C2, refuted as stated: outside a git repository the function does not
    return to its caller; it aborts, having reported the condition. *)
Lemma not_a_repository_aborts :
  create_and_push_branch not_a_repository "feature/test" true false
  = ([ERepoOpen;
      EError "Not a git repository (or any of the parent directories)."],
     Raised Abort)
  ∧ result (create_and_push_branch not_a_repository "feature/test" true false)
    ≠ Returned tt.
Proof. split; [by vm_compute | by vm_compute]. Qed.

(** C2, amended.  When the repository handle cannot be acquired, the
    function reports the condition through the error sink and then aborts.
    When a git command fails inside the [try] body, the function reports
    that through the error sink and then aborts.  The two failure kinds
    end the same way: one error message, then [click.Abort]. *)
Theorem both_failure_kinds_abort (w : World) name is_push dry_run :
  (repository w = None →
   create_and_push_branch w name is_push dry_run
   = ([ERepoOpen;
       EError "Not a git repository (or any of the parent directories)."],
      Raised Abort))
  ∧ (∀ msg,
       result (try_body w name is_push dry_run) = Raised (GitCommandError msg) →
       create_and_push_branch w name is_push dry_run
       = (trace (try_body w name is_push dry_run)
            ++ [EError ("Git command failed: " +:+ msg)],
          Raised Abort)).
Proof.
  split.
  - intros Hnone. unfold create_and_push_branch, try_body, Repo_open.
    by rewrite Hnone.
  - intros msg. unfold create_and_push_branch.
    destruct (try_body w name is_push dry_run) as [t r].
    cbn [result trace fst snd]. by intros ->.
Qed.

Lemma both_failure_kinds_abort_witness :
  result (create_and_push_branch not_a_repository "feature/test" true false)
  = Raised Abort
  ∧ result (create_and_push_branch create_fails "feature/error" false false)
    = Raised Abort.
Proof.
  split.
  - rewrite (proj1 (both_failure_kinds_abort not_a_repository
                      "feature/test" true false)); reflexivity.
  - rewrite (proj2 (both_failure_kinds_abort create_fails
                      "feature/error" false false) "Cmd('git') failed");
      reflexivity.
Defined.

(** ** Detached HEAD *)

(** C3 (on a valid but detached HEAD the function is to warn and go on to
    create, check out and push the branch, or to report those actions in
    dry-run).  On a clean work tree with a detached HEAD and no branch of
    the requested name, the function emits the detached-HEAD warning and
    then raises [TypeError] from the reading of the active branch at line
    72, which neither [except] clause catches: in dry-run none of the
    "would" messages is emitted, and outside dry-run no branch is created,
    checked out or pushed, and the handle stays open. *)
Theorem detached_head_raises :
  create_and_push_branch (world_of detached) "feature/test" false true
  = ([ERepoOpen; EWarning "HEAD is detached (not on a branch)."],
     Raised TypeError)
  ∧ count is_info
      (trace (create_and_push_branch (world_of detached) "feature/test"
                                     false true))
    = 0
  ∧ create_and_push_branch (world_of detached) "feature/test" true false
    = ([ERepoOpen; EWarning "HEAD is detached (not on a branch)."],
       Raised TypeError)
  ∧ count is_mutation
      (trace (create_and_push_branch (world_of detached) "feature/test"
                                     true false))
    = 0.
Proof. by vm_compute. Qed.

(** ** A requested name that is already checked out *)

(** C8, refuted as stated: with uncommitted changes in the work tree, asking
    for the branch that is checked out emits two warnings, not one. *)
Lemma checked_out_branch_two_warnings :
  count is_warning
    (trace (create_and_push_branch (world_of (dirty_on "feature/x"))
                                   "feature/x" true false))
  = 2
  ∧ count is_warning
      (trace (create_and_push_branch (world_of (dirty_on "feature/x"))
                                     "feature/x" true false))
    ≠ 1.
Proof. split; [by vm_compute | by vm_compute]. Qed.

(** C8, amended.  With a valid HEAD, dry-run or not, when the requested
    name exists locally and is the active branch, the function emits the
    advisories that apply (dirty tree, detached HEAD), then the single
    warning that the branch exists and is checked out, closes the handle
    and returns normally: no create, checkout or push is performed, lines
    83-108 are not reached, and the warnings are that one plus one per
    advisory, so exactly one in a clean tree on an attached HEAD. *)
Theorem checked_out_branch_is_noop (w : World) (repo : Repo) name is_push dry_run :
  repository w = Some repo →
  head_is_valid repo = true →
  name ∈ heads repo →
  HEAD repo = OnBranch name →
  create_and_push_branch w name is_push dry_run
  = (ERepoOpen :: preflight repo
       ++ [ELogDebug ("Current branch: " +:+ name);
           EWarning ("Branch '" +:+ name
                     +:+ "' already exists and is checked out");
           ERepoClose],
     Returned tt)
  ∧ count is_mutation
      (trace (create_and_push_branch w name is_push dry_run)) = 0
  ∧ count is_warning
      (trace (create_and_push_branch w name is_push dry_run))
    = 1 + (if is_dirty repo then 1 else 0)
        + (if head_is_detached repo then 1 else 0).
Proof.
  intros Hrepo Hv Hin Hact.
  assert (Heq : create_and_push_branch w name is_push dry_run
          = (ERepoOpen :: preflight repo
               ++ [ELogDebug ("Current branch: " +:+ name);
                   EWarning ("Branch '" +:+ name
                             +:+ "' already exists and is checked out");
                   ERepoClose],
             Returned tt)).
  { rewrite (create_and_push_branch_on_branch w repo name name) by done.
    rewrite (preflight_on_branch repo name) by done.
    unfold negotiate_from, _handle_existing_branch, active_branch, mem.
    rewrite Hact, bind_ret.
    rewrite bool_decide_eq_true_2 by done.
    rewrite bool_decide_eq_true_2 by done.
    done. }
  split; [done |].
  rewrite Heq, (preflight_on_branch repo name) by done.
  unfold dirty_warning, head_is_detached. rewrite Hact.
  by destruct (is_dirty repo).
Qed.

Lemma checked_out_branch_is_noop_witness :
  count is_warning
    (trace (create_and_push_branch
              (world_of (clean_main ["main"; "feature/x"])) "main" true false))
  = 1.
Proof.
  rewrite (proj2 (proj2 (checked_out_branch_is_noop
                           (world_of (clean_main ["main"; "feature/x"]))
                           (clean_main ["main"; "feature/x"])
                           "main" true false eq_refl eq_refl
                           (list_elem_of_here _ _) eq_refl))).
  reflexivity.
Defined.

(** ** Dry-run *)




(** ** A push that fails *)

(** C5.  Outside dry-run, with push requested, when the workflow reaches
    branch creation under the name [n], creation and checkout succeed, the
    remote [origin] is there and pushing fails with a git command error:
    the function aborts, and its success and error messages are, in order,
    "Created branch", "Checked out branch", "Git command failed": two
    successes, then the one error, which is the last event. *)
Theorem push_failure_after_two_successes
    (w : World) (repo : Repo) name cur n msg :
  repository w = Some repo →
  head_is_valid repo = true →
  HEAD repo = OnBranch cur →
  settled_name w repo name false = Some n →
  create_head_error w n = None →
  checkout_error w n = None →
  "origin" ∈ remotes repo →
  push_failure w (n +:+ ":" +:+ n) = Some msg →
  result (create_and_push_branch w name true false) = Raised Abort
  ∧ List.filter (λ ev, is_success ev || is_error ev)
      (trace (create_and_push_branch w name true false))
    = [ESuccess ("Created branch '" +:+ n
                 +:+ "' from " +:+ cur +:+ ".");
       ESuccess ("Checked out branch: " +:+ n);
       EError ("Git command failed: " +:+ msg)]
  ∧ count is_success (trace (create_and_push_branch w name true false)) = 2
  ∧ count is_error (trace (create_and_push_branch w name true false)) = 1
  ∧ last (trace (create_and_push_branch w name true false))
    = Some (EError ("Git command failed: " +:+ msg)).
Proof.
  intros Hrepo Hv Hhead Hn Hcreate Hcheckout Horigin Hpush.
  rewrite (create_and_push_branch_settled w repo name cur true false n) by done.
  rewrite (execute_push_failure w repo n cur msg) by done.
  cbn [try_except handlers]. unfold error. rewrite bind_emit.
  unfold after, raise. cbn [trace result fst snd].
  split; [done |].
  assert (Hlast : ∀ (t t' : list event) ev, last (t ++ t' ++ [ev]) = Some ev)
    by (intros t t' ev; rewrite app_assoc; apply last_snoc).
  split; [| split; [| split; [| apply Hlast]]].
  all: unfold dirty_warning, dialogue, count;
    rewrite !List.filter_app;
    destruct (is_dirty repo), (mem name (heads repo)), (push_error w _);
    by cbn.
Qed.

Lemma push_failure_after_two_successes_witness :
  result (create_and_push_branch push_fails "feature/push-error" true false)
  = Raised Abort
  ∧ count is_success
      (trace (create_and_push_branch push_fails "feature/push-error" true false))
    = 2
  ∧ count is_error
      (trace (create_and_push_branch push_fails "feature/push-error" true false))
    = 1.
Proof.
  destruct (push_failure_after_two_successes push_fails (clean_main [])
              "feature/push-error" "main" "feature/push-error"
              "Cmd('git') failed"
              eq_refl eq_refl eq_refl eq_refl eq_refl eq_refl
              (list_elem_of_here _ _) eq_refl)
    as (Hres & _ & Hsucc & Herr & _).
  split; [exact Hres | split; [exact Hsucc | exact Herr]].
Defined.

(** ** The cases of [tests/test_git.py] not covered above *)

Example success_with_push :
  List.filter is_success
    (trace (create_and_push_branch (world_of (clean_main []))
                                   "feature/with-push" true false))
  = [ESuccess "Created branch 'feature/with-push' from main.";
     ESuccess "Checked out branch: feature/with-push";
     ESuccess "Pushed branch 'feature/with-push' to origin."].
Proof. by vm_compute. Qed.

Example user_accepts_suffix :
  create_and_push_branch (world_of (clean_main ["feature/existing"]))
                         "feature/existing" false false
  = ([ERepoOpen;
      ELogDebug "Current branch: main";
      EWarning "Branch 'feature/existing' already exists locally.";
      EConfirm "Would you like to create a new branch with a suffix?" true;
      EPrompt "Enter suffix" "take2";
      EInfo "Creating new branch 'feature/existing-v2' instead.";
      ECreateHead "feature/existing-v2";
      ESuccess "Created branch 'feature/existing-v2' from main.";
      ECheckout "feature/existing-v2";
      ESuccess "Checked out branch: feature/existing-v2";
      ERepoClose],
     Returned tt).
Proof. by vm_compute. Qed.

Example user_declines_suffix :
  create_and_push_branch
    (mkWorld (Some (clean_main ["feature/existing"]))
             never never never never (Some false) None)
    "feature/existing" true false
  = ([ERepoOpen;
      ELogDebug "Current branch: main";
      EWarning "Branch 'feature/existing' already exists locally.";
      EConfirm "Would you like to create a new branch with a suffix?" true;
      EInfo "Operation canceled by user.";
      ERepoClose],
     Returned tt).
Proof. by vm_compute. Qed.

Example user_interrupts_confirmation :
  create_and_push_branch
    (mkWorld (Some (clean_main ["feature/existing"]))
             never never never never None None)
    "feature/existing" true false
  = ([ERepoOpen;
      ELogDebug "Current branch: main";
      EWarning "Branch 'feature/existing' already exists locally.";
      EConfirm "Would you like to create a new branch with a suffix?" true],
     Raised Abort).
Proof. by vm_compute. Qed.

Example missing_origin_propagates :
  result (create_and_push_branch
            (world_of (mkRepo false true (OnBranch "main") [] []))
            "feature/new" true false)
  = Raised (ValueError "Remote named 'origin' didn't exist").
Proof. by vm_compute. Qed.

End GitFacts.

(** * Properties of the [issues] command *)

Module IssuesFacts.
Import Py Eff Obs Issues.

(** C10, refuted as stated: with no issue to list, the command still puts
    text on standard output, namely the warning, which the sink prints
    there. *)
Lemma issues_empty_warning_on_stdout :
  count writes_stdout (trace (issues (λ _, "[]") (λ _, "") [] true false)) = 1
  ∧ count writes_stdout (trace (issues (λ _, "[]") (λ _, "") [] true false))
    ≠ 0.
Proof. split; [by vm_compute | by vm_compute]. Qed.

Section Command.
Variable json_dumps : list Issue -> string.
Variable tabulate : list (string * string * string * option string) -> string.

Local Abbreviation issues := (issues json_dumps tabulate).

(** C10, amended.  When the tracker returns no issue, the command emits the
    one warning "No open issues found." and returns.  The warning is the
    only text put on standard output: the command makes no call of its own
    that writes there, with or without [--json], so no JSON array is
    printed, not even an empty one. *)
Theorem issues_empty_only_warns (output_json isatty : bool) :
  issues [] output_json isatty
  = ([EWarning "No open issues found."], Returned tt)
  ∧ count is_warning (trace (issues [] output_json isatty)) = 1
  ∧ count writes_stdout (trace (issues [] output_json isatty)) = 1
  ∧ count is_output (trace (issues [] output_json isatty)) = 0
  ∧ EEcho (json_dumps []) ∉ trace (issues [] output_json isatty).
Proof.
  repeat split.
  cbn. intros Hin. apply list_elem_of_singleton in Hin. discriminate.
Qed.

(** By contrast, a list with at least one issue is written out, once, and
    nothing is warned about. *)
Lemma issues_nonempty_writes (i : Issue) (l : list Issue) output_json isatty :
  count is_output (trace (issues (i :: l) output_json isatty)) = 1
  ∧ count is_warning (trace (issues (i :: l) output_json isatty)) = 0
  ∧ (output_json = true →
     trace (issues (i :: l) output_json isatty)
     = [EEcho (json_dumps (i :: l))]).
Proof.
  unfold Issues.issues.
  destruct output_json, isatty; repeat split; done.
Qed.

End Command.

End IssuesFacts.

(** * Further properties of the argument dispatcher *)

Module GroupMore.
Import Py Group GroupFacts.

Section Passes.
Variable isdigit : string -> bool.
Variable is_jira_issue : string -> bool.
Variable is_linear_issue : string -> bool.
Variable Command : Type.
Variable commands : gmap string Command.

Local Abbreviation create_loop :=
  (create_loop isdigit is_jira_issue is_linear_issue Command commands).
Local Abbreviation handle_create_command :=
  (handle_create_command isdigit is_jira_issue is_linear_issue Command
                         commands).
Local Abbreviation parse_args_rewrite :=
  (parse_args_rewrite isdigit is_jira_issue is_linear_issue Command commands).
Local Abbreviation flag a := (startswith "--" a = true).
Local Abbreviation nonflag a := (startswith "--" a = false).

Lemma list_insert_at_app_l {A} (j : nat) (x : A) (l rest : list A) :
  (j ≤ length l)%nat →
  list_insert_at j x (l ++ rest) = list_insert_at j x l ++ rest.
Proof.
  intros Hj. unfold list_insert_at.
  rewrite take_app_le, drop_app_le by done.
  by rewrite <- app_assoc.
Qed.

Lemma list_insert_at_app_r {A} (j : nat) (x : A) (l k : list A) :
  list_insert_at (length l + j) x (l ++ k) = l ++ list_insert_at j x k.
Proof.
  unfold list_insert_at.
  rewrite take_app_add, drop_app_add.
  by rewrite <- app_assoc.
Qed.

(** Starting the loop [k] positions later shifts its answer by [k]. *)
Lemma create_loop_shift (k i : nat) (items : list string) :
  create_loop (k + i) items = (λ j, k + j)%nat <$> create_loop i items.
Proof.
  revert i. induction items as [| a items IH]; intros i; [done |].
  cbn [Group.create_loop].
  destruct (negb (startswith "--" a)).
  - by destruct (_ && _).
  - rewrite <- IH. f_equal. lia.
Qed.

(** Once the loop has met a token that is not a flag, nothing after it
    matters. *)
Lemma create_loop_app (i : nat) (l rest : list string) :
  Exists (λ a, nonflag a) l →
  create_loop i (l ++ rest) = create_loop i l.
Proof.
  intros Hex. revert i.
  induction Hex as [a l Ha | a l _ IH]; intros i; cbn [app Group.create_loop].
  - by rewrite Ha.
  - destruct (negb (startswith "--" a)); [done | apply IH].
Qed.

Lemma create_loop_Some_inv (i j : nat) (items : list string) :
  create_loop i items = Some j →
  ∃ flags t rest,
    items = flags ++ t :: rest
    ∧ Forall (λ a, flag a) flags
    ∧ nonflag t
    ∧ j = (i + length flags)%nat.
Proof.
  revert i. induction items as [| a items IH]; intros i; [done |].
  cbn [Group.create_loop].
  destruct (startswith "--" a) eqn:Ha; cbn [negb].
  - intros Hloop. apply IH in Hloop as (flags & t & rest & -> & Hfl & Ht & ->).
    exists (a :: flags), t, rest.
    repeat split; [by constructor | done | cbn [length]; lia].
  - destruct (_ && _); [| done].
    intros [= <-]. exists [], a, items.
    repeat split; [done | done | cbn [length]; lia].
Qed.

Lemma handle_create_command_flags (flags l : list string) :
  Forall (λ a, flag a) flags →
  handle_create_command (flags ++ l) = flags ++ handle_create_command l.
Proof.
  intros Hfl. unfold Group.handle_create_command.
  rewrite create_loop_flags by done.
  replace (create_loop (0 + length flags) l)
    with ((λ j, length flags + j)%nat <$> create_loop 0 l)
    by (rewrite <- create_loop_shift; f_equal; lia).
  destruct (create_loop 0 l) as [j |]; cbn [fmap option_fmap option_map].
  - apply list_insert_at_app_r.
  - done.
Qed.

Lemma handle_create_command_suffix (l rest : list string) :
  Exists (λ a, nonflag a) l →
  handle_create_command (l ++ rest) = handle_create_command l ++ rest.
Proof.
  intros Hex. unfold Group.handle_create_command.
  rewrite create_loop_app by done.
  destruct (create_loop 0 l) as [j |] eqn:Hloop; [| done].
  apply create_loop_bound in Hloop.
  apply list_insert_at_app_l. lia.
Qed.

(** X1.  The implicit-create pass is local to the first token that is not
    a flag: flags in front of a list are carried over unchanged, and so is
    everything that follows a list holding a token that is not a flag. *)
Theorem handle_create_command_local (flags l rest : list string) :
  Forall (λ a, flag a) flags →
  Exists (λ a, nonflag a) l →
  handle_create_command (flags ++ l ++ rest)
  = flags ++ handle_create_command l ++ rest.
Proof.
  intros Hfl Hex.
  rewrite handle_create_command_flags by done.
  by rewrite handle_create_command_suffix.
Qed.

(** X2.  In a group that has a command named "create", the implicit-create
    pass is idempotent: applied to its own output it changes nothing. *)
Theorem handle_create_command_idempotent (args : list string) :
  is_Some (commands !! "create") →
  handle_create_command (handle_create_command args)
  = handle_create_command args.
Proof.
  intros Hcreate. unfold Group.handle_create_command at 2 3.
  destruct (create_loop 0 args) as [j |] eqn:Hloop;
    [| unfold Group.handle_create_command; by rewrite Hloop].
  apply create_loop_Some_inv in Hloop
    as (flags & t & rest & -> & Hfl & Ht & ->).
  cbn [Nat.add]. rewrite list_insert_at_app.
  unfold Group.handle_create_command.
  rewrite create_loop_first by done.
  unfold Group.is_command. by rewrite bool_decide_eq_true_2.
Qed.

(** X3.  The two passes in sequence, as [parse_args] applies them.  After
    the alias "git" the global flags come first and the implicit-create
    pass acts on the other tokens alone; a list that does not start with
    "git" goes through the implicit-create pass only. *)
Theorem parse_args_rewrite_passes :
  (∀ rest : list string,
     parse_args_rewrite ("git" :: rest)
     = filter (λ a, a ∈ GLOBAL_FLAGS) rest
       ++ handle_create_command (filter (λ a, a ∉ GLOBAL_FLAGS) rest))
  ∧ (∀ args : list string,
       head args ≠ Some "git" →
       parse_args_rewrite args = handle_create_command args).
Proof.
  split.
  - intros rest. unfold Group.parse_args_rewrite. cbn [handle_git_alias].
    rewrite bool_decide_eq_true_2 by done.
    apply handle_create_command_flags.
    apply Forall_forall. intros a Ha.
    apply list_elem_of_filter in Ha as [Ha _].
    unfold GLOBAL_FLAGS in Ha. apply list_elem_of_singleton in Ha.
    by subst a.
  - intros [| a args] Hhd; [done |].
    unfold Group.parse_args_rewrite. cbn [handle_git_alias].
    case_bool_decide as Ha; [| done].
    subst a. by destruct Hhd.
Qed.

End Passes.

(** X4.  After the alias "git" the pass returns as many tokens as follow
    the alias, and when none of them is a global flag it returns them as
    they are. *)
Theorem handle_git_alias_tail (rest : list string) :
  length (handle_git_alias ("git" :: rest)) = length rest
  ∧ (Forall (λ a, a ∉ GLOBAL_FLAGS) rest →
     handle_git_alias ("git" :: rest) = rest).
Proof.
  cbn [handle_git_alias]. rewrite bool_decide_eq_true_2 by done.
  split.
  - apply Permutation_length, filter_app_complement.
  - intros Hrest.
    assert (Hboth : filter (λ a, a ∈ GLOBAL_FLAGS) rest = []
                    ∧ filter (λ a, a ∉ GLOBAL_FLAGS) rest = rest).
    { induction Hrest as [| a rest Ha _ [IHin IHout]]; [done |].
      rewrite !filter_cons.
      destruct (decide (a ∈ GLOBAL_FLAGS)) as [Hin | _]; [done |].
      destruct (decide (a ∉ GLOBAL_FLAGS)) as [_ | Hout]; [| done].
      by rewrite IHin, IHout. }
    destruct Hboth as [-> ->]. done.
Qed.

Lemma handle_create_command_local_witness :
  create_cmd (["--verbose"] ++ ["123"; "extra"] ++ ["--dry-run"; "456"])
  = ["--verbose"] ++ create_cmd ["123"; "extra"] ++ ["--dry-run"; "456"].
Proof.
  apply (handle_create_command_local
           isdigit_ascii is_jira_issue_model no_match unit issues_only
           ["--verbose"] ["123"; "extra"] ["--dry-run"; "456"]).
  - repeat constructor.
  - apply Exists_cons_hd. reflexivity.
Defined.

Lemma handle_create_command_idempotent_witness :
  handle_create_command isdigit_ascii is_jira_issue_model no_match unit
    (<["create" := tt]> issues_only)
    (handle_create_command isdigit_ascii is_jira_issue_model no_match unit
       (<["create" := tt]> issues_only) ["--verbose"; "ABC-7"])
  = handle_create_command isdigit_ascii is_jira_issue_model no_match unit
      (<["create" := tt]> issues_only) ["--verbose"; "ABC-7"].
Proof.
  apply handle_create_command_idempotent.
  exists tt. apply lookup_insert_eq.
Defined.

Lemma parse_args_rewrite_passes_witness :
  parse_args_rewrite isdigit_ascii is_jira_issue_model no_match unit issues_only
    ["--verbose"; "42"]
  = create_cmd ["--verbose"; "42"].
Proof.
  apply (proj2 (parse_args_rewrite_passes
                  isdigit_ascii is_jira_issue_model no_match unit issues_only)).
  cbn [head]. intros [= H].
Defined.

Lemma handle_git_alias_tail_witness :
  handle_git_alias ["git"; "issues"; "--json"] = ["issues"; "--json"].
Proof.
  apply (proj2 (handle_git_alias_tail ["issues"; "--json"])).
  repeat constructor; intros Hin;
    apply list_elem_of_singleton in Hin; discriminate.
Defined.

End GroupMore.

(** * Further properties of the branch-creation workflow *)

Module GitMore.
Import Py Eff Obs Git GitFacts.
Local Open Scope eff_scope.

Local Arguments String.append : simpl never.
Local Arguments mem : simpl never.

(** The events before lines 83-108 carry no success, no error and no
    mutation. *)
Lemma before_execute_quiet (repo : Repo) name cur n :
  List.filter (λ ev, is_success ev || is_error ev)
    (ERepoOpen :: dirty_warning repo
       ++ ELogDebug ("Current branch: " +:+ cur) :: dialogue repo name n) = []
  ∧ List.filter is_mutation
      (ERepoOpen :: dirty_warning repo
         ++ ELogDebug ("Current branch: " +:+ cur) :: dialogue repo name n)
    = [].
Proof. quiet_pieces repo name; done. Qed.

Lemma last_app_snoc {A} (t t' : list A) (x : A) :
  last (t ++ t' ++ [x]) = Some x.
Proof. rewrite app_assoc. apply last_snoc. Qed.

(** X5.  The repository handle is closed exactly once when the function
    returns and never when it raises, in every state, outside a repository
    included. *)
Theorem close_count_by_outcome (w : World) name is_push dry_run :
  count is_close (trace (create_and_push_branch w name is_push dry_run))
  = match result (create_and_push_branch w name is_push dry_run) with
    | Returned _ => 1
    | Raised _ => 0
    end.
Proof.
  destruct (repository w) as [repo |] eqn:Hrepo.
  - by apply (close_iff_returned w repo).
  - by rewrite create_and_push_branch_none.
Qed.

(** X6.  The function emits at most one error message; when it emits one,
    that message is its last event and the function ends by
    [click.Abort]. *)
Theorem error_is_last_and_aborts (w : World) name is_push dry_run :
  count is_error (trace (create_and_push_branch w name is_push dry_run))
  = match last (trace (create_and_push_branch w name is_push dry_run)) with
    | Some (EError _) => 1
    | _ => 0
    end
  ∧ (count is_error (trace (create_and_push_branch w name is_push dry_run))
     = 1 →
     result (create_and_push_branch w name is_push dry_run) = Raised Abort).
Proof.
  workflow_cases w name is_push dry_run.
  - rewrite trace_after, result_after, count_app.
    replace (count is_error (ERepoOpen :: dirty_warning repo
               ++ ELogDebug ("Current branch: " +:+ cur)
               :: dialogue repo name n)) with 0
      by (quiet_pieces repo name; done).
    rewrite last_app.
    execute_cases; done.
  - quiet_pieces repo name; done.
  - quiet_pieces repo name; done.
  - quiet_pieces repo name; done.
  - quiet_pieces repo name; done.
  - quiet_pieces repo name; done.
  - quiet_pieces repo name; done.
  - quiet_pieces repo name; done.
  - done.
Qed.

Lemma error_is_last_and_aborts_witness :
  result (create_and_push_branch create_fails "feature/error" false false)
  = Raised Abort.
Proof.
  apply (proj2 (error_is_last_and_aborts create_fails "feature/error"
                  false false)).
  reflexivity.
Defined.

(** X7.  Whatever happens, the calls that change the repository or the
    remote are an initial part of: create the branch, check it out, push it
    with the refspec "name:name" and upstream tracking, all three for one
    and the same name. *)
Theorem mutations_in_order (w : World) name is_push dry_run :
  ∃ n,
    List.filter is_mutation
      (trace (create_and_push_branch w name is_push dry_run))
    `prefix_of` [ECreateHead n; ECheckout n; EPush (n +:+ ":" +:+ n) true].
Proof.
  workflow_cases w name is_push dry_run.
  - exists n. rewrite trace_after, List.filter_app.
    destruct (before_execute_quiet repo name cur n) as [_ ->].
    cbn [app].
    execute_cases;
      first [ apply prefix_nil
            | by eexists ].
  - exists name. quiet_pieces repo name; apply prefix_nil.
  - exists name. quiet_pieces repo name; apply prefix_nil.
  - exists name. quiet_pieces repo name; apply prefix_nil.
  - exists name. quiet_pieces repo name; apply prefix_nil.
  - exists name. quiet_pieces repo name; apply prefix_nil.
  - exists name. quiet_pieces repo name; apply prefix_nil.
  - exists name. quiet_pieces repo name; apply prefix_nil.
  - exists name. apply prefix_nil.
Qed.

(** X8.  The function waits for the user only outside dry-run, with a valid
    HEAD that is on a branch, when the requested name is taken by a branch
    other than the active one: it asks for the confirmation and, if the
    user accepts, for the suffix.  In every other case, dry-run and
    detached HEAD among them, it never prompts. *)
Theorem prompt_count (w : World) name is_push dry_run :
  count is_prompt (trace (create_and_push_branch w name is_push dry_run))
  = match repository w with
    | Some repo =>
        match HEAD repo with
        | OnBranch cur =>
            if head_is_valid repo
               && mem name (heads repo)
               && negb (bool_decide (cur = name))
               && negb dry_run
            then match confirm_reply w with
                 | Some true => 2
                 | _ => 1
                 end
            else 0
        | Detached => 0
        end
    | None => 0
    end.
Proof.
  destruct (repository w) as [repo |] eqn:Hrepo.
  2: { by rewrite create_and_push_branch_none. }
  destruct (head_is_valid repo) eqn:Hv.
  2: { rewrite (create_and_push_branch_invalid w repo) by done.
       destruct (HEAD repo); quiet_pieces repo name; done. }
  destruct (HEAD repo) as [cur |] eqn:Hhead.
  2: { rewrite (create_and_push_branch_detached w repo) by done.
       quiet_pieces repo name; done. }
  destruct (settled_name w repo name dry_run) as [n |] eqn:Hn.
  - rewrite (create_and_push_branch_settled w repo name cur is_push dry_run n)
      by done.
    rewrite trace_after, count_app.
    replace (count is_prompt
               (trace (try_except (execute w repo n cur is_push dry_run)
                                  handlers))) with 0
      by (execute_cases; done).
    unfold settled_name in Hn. rewrite Hhead in Hn.
    unfold dirty_warning, dialogue.
    destruct (is_dirty repo), (mem name (heads repo)),
      (bool_decide (cur = name)), dry_run,
      (confirm_reply w) as [[|] |], (prompt_reply w); done.
  - rewrite (create_and_push_branch_on_branch w repo name cur) by done.
    unfold settled_name in Hn. rewrite Hhead in Hn.
    unfold negotiate_from, _handle_existing_branch, active_branch.
    rewrite Hhead, bind_ret.
    unfold warning, info, confirm, prompt, close, dirty_warning.
    destruct (is_dirty repo), (mem name (heads repo)),
      (bool_decide (cur = name)), dry_run,
      (confirm_reply w) as [[|] |], (prompt_reply w); done.
Qed.

(** X9.  Without the push flag the function never looks up the remote,
    never pushes and never inspects a push result. *)
Theorem no_push_no_remote (w : World) name dry_run :
  count is_remote_call (trace (create_and_push_branch w name false dry_run))
  = 0.
Proof.
  workflow_cases w name false dry_run.
  - rewrite trace_after, count_app.
    replace (count is_remote_call (ERepoOpen :: dirty_warning repo
               ++ ELogDebug ("Current branch: " +:+ cur)
               :: dialogue repo name n)) with 0
      by (quiet_pieces repo name; done).
    execute_cases; done.
  - quiet_pieces repo name; done.
  - quiet_pieces repo name; done.
  - quiet_pieces repo name; done.
  - quiet_pieces repo name; done.
  - quiet_pieces repo name; done.
  - quiet_pieces repo name; done.
  - quiet_pieces repo name; done.
  - done.
Qed.

(** X10.  Outside dry-run, with push requested, when the workflow reaches
    branch creation under the name [n] and creation, checkout and push all
    succeed: the function returns normally, its messages are the three
    successes "Created", "Checked out", "Pushed" in that order with no
    error, the branch is created, checked out and pushed with the refspec
    "n:n" and upstream tracking, and closing the handle is the last thing
    done. *)
Theorem push_success_three_messages (w : World) (repo : Repo) name cur n :
  repository w = Some repo →
  head_is_valid repo = true →
  HEAD repo = OnBranch cur →
  settled_name w repo name false = Some n →
  create_head_error w n = None →
  checkout_error w n = None →
  "origin" ∈ remotes repo →
  push_error w (n +:+ ":" +:+ n) = None →
  push_result_error w (n +:+ ":" +:+ n) = None →
  result (create_and_push_branch w name true false) = Returned tt
  ∧ List.filter (λ ev, is_success ev || is_error ev)
      (trace (create_and_push_branch w name true false))
    = [ESuccess ("Created branch '" +:+ n
                 +:+ "' from " +:+ cur +:+ ".");
       ESuccess ("Checked out branch: " +:+ n);
       ESuccess ("Pushed branch '" +:+ n +:+ "' to origin.")]
  ∧ List.filter is_mutation
      (trace (create_and_push_branch w name true false))
    = [ECreateHead n; ECheckout n; EPush (n +:+ ":" +:+ n) true]
  ∧ last (trace (create_and_push_branch w name true false))
    = Some ERepoClose.
Proof.
  intros Hrepo Hv Hhead Hn Hcreate Hcheckout Horigin Hpush Hres.
  rewrite (create_and_push_branch_settled w repo name cur true false n)
    by done.
  rewrite result_after, trace_after, !List.filter_app.
  destruct (before_execute_quiet repo name cur n) as [-> ->].
  unfold_calls. unfold mem.
  rewrite Hcreate, Hcheckout, Hpush, Hres, bool_decide_eq_true_2 by done.
  cbn. repeat split.
  exact (last_app_snoc (ERepoOpen :: _) [_; _; _; _; _; _; _; _] _).
Qed.

Lemma push_success_three_messages_witness :
  result (create_and_push_branch (world_of (clean_main []))
                                 "feature/with-push" true false)
  = Returned tt
  ∧ List.filter is_mutation
      (trace (create_and_push_branch (world_of (clean_main []))
                                     "feature/with-push" true false))
    = [ECreateHead "feature/with-push";
       ECheckout "feature/with-push";
       EPush ("feature/with-push" +:+ ":" +:+ "feature/with-push") true].
Proof.
  destruct (push_success_three_messages
              (world_of (clean_main [])) (clean_main [])
              "feature/with-push" "main" "feature/with-push"
              eq_refl eq_refl eq_refl eq_refl eq_refl eq_refl
              (list_elem_of_here _ _) eq_refl eq_refl)
    as (Hres & _ & Hmut & _).
  split; [exact Hres | exact Hmut].
Defined.

(** X11.  Outside dry-run, when the requested name is taken by a branch
    other than the active one and the user declines the suffix, the function
    warns, asks once, emits the one message "Operation canceled by user.",
    closes the handle and returns normally: no branch is created. *)
Theorem declined_suffix_cancels (w : World) (repo : Repo) name cur is_push :
  repository w = Some repo →
  head_is_valid repo = true →
  name ∈ heads repo →
  HEAD repo = OnBranch cur →
  cur ≠ name →
  confirm_reply w = Some false →
  create_and_push_branch w name is_push false
  = (ERepoOpen :: preflight repo
       ++ [ELogDebug ("Current branch: " +:+ cur);
           EWarning ("Branch '" +:+ name +:+ "' already exists locally.");
           EConfirm "Would you like to create a new branch with a suffix?"
                    true;
           EInfo "Operation canceled by user.";
           ERepoClose],
     Returned tt)
  ∧ count is_mutation
      (trace (create_and_push_branch w name is_push false)) = 0.
Proof.
  intros Hrepo Hv Hin Hhead Hact Hno.
  rewrite (create_and_push_branch_on_branch w repo name cur) by done.
  rewrite (preflight_on_branch repo cur) by done.
  unfold negotiate_from, _handle_existing_branch, active_branch, confirm, mem.
  rewrite Hhead, bind_ret.
  rewrite bool_decide_eq_true_2 by done.
  rewrite bool_decide_eq_false_2 by done.
  rewrite Hno.
  split; [done |].
  quiet_pieces repo name; done.
Qed.

Lemma declined_suffix_cancels_witness :
  count is_mutation
    (trace (create_and_push_branch
              (mkWorld (Some (clean_main ["feature/existing"]))
                       never never never never (Some false) None)
              "feature/existing" true false))
  = 0.
Proof.
  apply (proj2 (declined_suffix_cancels
                  (mkWorld (Some (clean_main ["feature/existing"]))
                           never never never never (Some false) None)
                  (clean_main ["feature/existing"])
                  "feature/existing" "main" true eq_refl eq_refl
                  (list_elem_of_here _ _) eq_refl ltac:(discriminate)
                  eq_refl)).
Defined.

(** X12.  Outside dry-run, when the requested name is taken by a branch
    other than the active one and the user accepts, the first and only
    branch the function tries to create is "name-suffix", with the suffix
    as typed.  The new name is not looked up among the local branches: the
    creation is attempted even when a branch of that name exists. *)
Theorem accepted_suffix_not_rechecked
    (w : World) (repo : Repo) name cur suffix is_push :
  repository w = Some repo →
  head_is_valid repo = true →
  name ∈ heads repo →
  HEAD repo = OnBranch cur →
  cur ≠ name →
  confirm_reply w = Some true →
  prompt_reply w = Some suffix →
  head (List.filter is_mutation
          (trace (create_and_push_branch w name is_push false)))
  = Some (ECreateHead (name +:+ "-" +:+ suffix))
  ∧ count (λ ev, match ev with ECreateHead _ => true | _ => false end)
      (trace (create_and_push_branch w name is_push false)) = 1.
Proof.
  intros Hrepo Hv Hin Hhead Hact Hyes Hsuffix.
  assert (Hn : settled_name w repo name false
               = Some (name +:+ "-" +:+ suffix)).
  { unfold settled_name, mem. rewrite Hhead.
    rewrite bool_decide_eq_true_2 by done.
    rewrite bool_decide_eq_false_2 by done.
    by rewrite Hyes, Hsuffix. }
  rewrite (create_and_push_branch_settled
             w repo name cur is_push false _ Hrepo Hv Hhead Hn).
  rewrite trace_after, List.filter_app, count_app.
  destruct (before_execute_quiet repo name cur (name +:+ "-" +:+ suffix))
    as [_ ->].
  replace (count (λ ev, match ev with ECreateHead _ => true | _ => false end)
             (ERepoOpen :: dirty_warning repo
                ++ ELogDebug ("Current branch: " +:+ cur)
                :: dialogue repo name (name +:+ "-" +:+ suffix))) with 0
    by (quiet_pieces repo name; done).
  cbn [app].
  execute_cases; done.
Qed.

Lemma accepted_suffix_not_rechecked_witness :
  head (List.filter is_mutation
          (trace (create_and_push_branch
                    (world_of (clean_main ["feature/x"; "feature/x-v2"]))
                    "feature/x" false false)))
  = Some (ECreateHead ("feature/x" +:+ "-" +:+ "v2")).
Proof.
  apply (proj1 (accepted_suffix_not_rechecked
                  (world_of (clean_main ["feature/x"; "feature/x-v2"]))
                  (clean_main ["feature/x"; "feature/x-v2"])
                  "feature/x" "main" "v2" false eq_refl eq_refl
                  (list_elem_of_here _ _) eq_refl ltac:(discriminate)
                  eq_refl eq_refl)).
Defined.

(** X13.  Outside dry-run, when the workflow reaches branch creation under
    the name [n] and git refuses to create the branch: the creation is the
    only mutating call made (no checkout, no push), no success message is
    emitted, the last event is the error message carrying git's text, and
    the function aborts. *)
Theorem create_failure_stops (w : World) (repo : Repo) name n is_push msg :
  repository w = Some repo →
  head_is_valid repo = true →
  settled_name w repo name false = Some n →
  create_head_error w n = Some msg →
  result (create_and_push_branch w name is_push false) = Raised Abort
  ∧ List.filter is_mutation
      (trace (create_and_push_branch w name is_push false))
    = [ECreateHead n]
  ∧ count is_success
      (trace (create_and_push_branch w name is_push false)) = 0
  ∧ last (trace (create_and_push_branch w name is_push false))
    = Some (EError ("Git command failed: " +:+ msg)).
Proof.
  intros Hrepo Hv Hn Hcreate.
  destruct (HEAD repo) as [cur |] eqn:Hhead;
    [| unfold settled_name in Hn; by rewrite Hhead in Hn].
  rewrite (create_and_push_branch_settled w repo name cur is_push false n)
    by done.
  rewrite result_after, trace_after, List.filter_app.
  destruct (before_execute_quiet repo name cur n) as [_ ->].
  unfold_calls. rewrite Hcreate.
  split; [done |]. split; [done |]. split.
  - quiet_pieces repo name; done.
  - exact (last_app_snoc (ERepoOpen :: _) [_] _).
Qed.

Lemma create_failure_stops_witness :
  List.filter is_mutation
    (trace (create_and_push_branch create_fails "feature/error" false false))
  = [ECreateHead "feature/error"].
Proof.
  destruct (create_failure_stops create_fails (clean_main [])
              "feature/error" "feature/error" false "Cmd('git') failed"
              eq_refl eq_refl eq_refl eq_refl)
    as (_ & Hmut & _).
  exact Hmut.
Defined.

(** X14.  Outside dry-run, when the branch [n] is created but its checkout
    fails: creation and checkout are the only mutating calls made (no
    push), exactly one success message ("Created branch") is emitted, the
    last event is the error message carrying git's text, and the function
    aborts, leaving the new branch behind. *)
Theorem checkout_failure_stops
    (w : World) (repo : Repo) name cur n is_push msg :
  repository w = Some repo →
  head_is_valid repo = true →
  HEAD repo = OnBranch cur →
  settled_name w repo name false = Some n →
  create_head_error w n = None →
  checkout_error w n = Some msg →
  result (create_and_push_branch w name is_push false) = Raised Abort
  ∧ List.filter is_mutation
      (trace (create_and_push_branch w name is_push false))
    = [ECreateHead n; ECheckout n]
  ∧ List.filter is_success
      (trace (create_and_push_branch w name is_push false))
    = [ESuccess ("Created branch '" +:+ n
                 +:+ "' from " +:+ cur +:+ ".")]
  ∧ last (trace (create_and_push_branch w name is_push false))
    = Some (EError ("Git command failed: " +:+ msg)).
Proof.
  intros Hrepo Hv Hhead Hn Hcreate Hcheckout.
  rewrite (create_and_push_branch_settled w repo name cur is_push false n)
    by done.
  rewrite result_after, trace_after, !List.filter_app.
  destruct (before_execute_quiet repo name cur n) as [_ ->].
  unfold_calls. rewrite Hcreate, Hcheckout.
  split; [done |]. split; [done |]. split.
  - quiet_pieces repo name; done.
  - exact (last_app_snoc (ERepoOpen :: _) [_; _; _] _).
Qed.

Lemma checkout_failure_stops_witness :
  List.filter is_mutation
    (trace (create_and_push_branch
              (mkWorld (Some (clean_main [])) never (always "pathspec")
                       never never (Some true) (Some "v2"))
              "feature/new" true false))
  = [ECreateHead "feature/new"; ECheckout "feature/new"].
Proof.
  destruct (checkout_failure_stops
              (mkWorld (Some (clean_main [])) never (always "pathspec")
                       never never (Some true) (Some "v2"))
              (clean_main []) "feature/new" "main" "feature/new" true
              "pathspec"
              eq_refl eq_refl eq_refl eq_refl eq_refl eq_refl)
    as (_ & Hmut & _).
  exact Hmut.
Defined.

(** X15.  A dirty working tree changes nothing but one warning: the run in
    a dirty tree is the run in the same tree without the changes, with the
    dirty-tree warning put right after the opening of the repository,
    before every other event (the invalid-HEAD error among them), and it
    ends the same way. *)
Theorem dirty_tree_only_warns (w : World) (repo : Repo) name is_push dry_run :
  let clean :=
    create_and_push_branch (in_repository (with_dirty false repo) w)
                           name is_push dry_run in
  head (trace clean) = Some ERepoOpen
  ∧ create_and_push_branch (in_repository (with_dirty true repo) w)
                           name is_push dry_run
    = (ERepoOpen
         :: EWarning "Working tree is dirty — uncommitted changes present."
         :: tail (trace clean),
       result clean).
Proof.
  cbv zeta.
  destruct (head_is_valid repo) eqn:Hv.
  - destruct (Git.HEAD repo) as [cur |] eqn:Hhead.
    + rewrite (create_and_push_branch_on_branch
                 (in_repository (with_dirty false repo) w)
                 (with_dirty false repo) name cur) by done.
      rewrite (create_and_push_branch_on_branch
                 (in_repository (with_dirty true repo) w)
                 (with_dirty true repo) name cur) by done.
      done.
    + rewrite (create_and_push_branch_detached
                 (in_repository (with_dirty false repo) w)
                 (with_dirty false repo)) by done.
      rewrite (create_and_push_branch_detached
                 (in_repository (with_dirty true repo) w)
                 (with_dirty true repo)) by done.
      done.
  - rewrite (create_and_push_branch_invalid
               (in_repository (with_dirty false repo) w)
               (with_dirty false repo)) by done.
    rewrite (create_and_push_branch_invalid
               (in_repository (with_dirty true repo) w)
               (with_dirty true repo)) by done.
    done.
Qed.

(** X18.  [_handle_existing_branch] on its own.  It makes no mutating git
    call and does not close the handle (that is left to the caller).  On a
    detached HEAD it raises the [TypeError] of line 34.  On a branch, it
    returns [None] when that branch is the requested one or in dry-run;
    otherwise it asks: an interrupted prompt raises [click.Abort], a refusal
    returns [None], and an acceptance followed by a suffix returns the
    requested name, a dash and the suffix typed. *)
Theorem handle_existing_branch_result (w : World) (repo : Repo) name dry_run :
  result (_handle_existing_branch w repo name dry_run)
  = match HEAD repo with
    | Detached => Raised TypeError
    | OnBranch cur =>
        if bool_decide (cur = name) then Returned None
        else if dry_run then Returned None
        else
          match confirm_reply w with
          | None => Raised Abort
          | Some false => Returned None
          | Some true =>
              match prompt_reply w with
              | None => Raised Abort
              | Some suffix => Returned (Some (name +:+ "-" +:+ suffix))
              end
          end
    end
  ∧ count is_mutation (trace (_handle_existing_branch w repo name dry_run))
    = 0
  ∧ count is_close (trace (_handle_existing_branch w repo name dry_run))
    = 0.
Proof.
  unfold _handle_existing_branch, active_branch, confirm, prompt, warning,
    info.
  destruct (HEAD repo) as [cur |]; [| done].
  rewrite bind_ret.
  destruct (bool_decide (cur = name)); [done |].
  destruct dry_run; [done |].
  destruct (confirm_reply w) as [[|] |]; [| done | done].
  by destruct (prompt_reply w).
Qed.

(** X16.  In a repository without a valid HEAD nothing that was asked for
    matters: whatever the name and the flags (dry-run included), the
    function emits the error "Please make an initial commit before using
    gibr." as its last event and aborts, without any mutating call and
    without prompting. *)
Theorem invalid_head_aborts (w : World) (repo : Repo) name is_push dry_run :
  repository w = Some repo →
  head_is_valid repo = false →
  result (create_and_push_branch w name is_push dry_run) = Raised Abort
  ∧ last (trace (create_and_push_branch w name is_push dry_run))
    = Some (EError "Please make an initial commit before using gibr.")
  ∧ count is_mutation
      (trace (create_and_push_branch w name is_push dry_run)) = 0
  ∧ count is_prompt
      (trace (create_and_push_branch w name is_push dry_run)) = 0
  ∧ (∀ name' is_push' dry_run',
       create_and_push_branch w name' is_push' dry_run'
       = create_and_push_branch w name is_push dry_run).
Proof.
  intros Hrepo Hv.
  split; [| split; [| split; [| split]]].
  5: { intros name' is_push' dry_run'.
       by rewrite !(create_and_push_branch_invalid w repo). }
  all: rewrite (create_and_push_branch_invalid w repo) by done.
  - done.
  - exact (last_app_snoc [ERepoOpen] _ _).
  - quiet_pieces repo name; done.
  - quiet_pieces repo name; done.
Qed.

Lemma invalid_head_aborts_witness :
  result (create_and_push_branch (world_of no_commits) "feature/test" true true)
  = Raised Abort.
Proof.
  apply (proj1 (invalid_head_aborts (world_of no_commits) no_commits
                  "feature/test" true true eq_refl eq_refl)).
Defined.

End GitMore.

(** * Further properties of the [issues] command *)

Module IssuesMore.
Import Py Eff Issues.

Section Command.
Variable json_dumps : list Issue -> string.
Variable tabulate : list (string * string * string * option string) -> string.

Local Abbreviation issues := (issues json_dumps tabulate).

(** X17.  Whatever the tracker returns, the command does exactly one thing
    and returns normally: it warns when there is no issue and writes once
    when there is one or more, never both.  With [--json] the write is
    [click.echo] of the JSON text of all the issues, on a terminal or not:
    JSON never goes through the pager or [safe_echo]; without [--json] the
    pager is used exactly when standard output is a terminal. *)
Theorem issues_one_event (l : list Issue) (output_json isatty : bool) :
  result (issues l output_json isatty) = Returned tt
  ∧ length (trace (issues l output_json isatty)) = 1
  ∧ count is_warning (trace (issues l output_json isatty))
    = (if l is [] then 1 else 0)
  ∧ count is_output (trace (issues l output_json isatty))
    = (if l is [] then 0 else 1)
  ∧ (l ≠ [] → output_json = true →
     trace (issues l output_json isatty) = [EEcho (json_dumps l)])
  ∧ (l ≠ [] → output_json = false →
     ∃ text,
       trace (issues l output_json isatty)
       = [if isatty then EEchoViaPager text else ESafeEcho text]).
Proof.
  destruct l as [| i l]; unfold Issues.issues.
  - repeat split; done.
  - destruct output_json, isatty; repeat split; try done.
    all: intros _ _; by eexists.
Qed.

End Command.

Lemma issues_one_event_witness :
  trace (issues (λ _, "[...]") (λ _, "| Issue |")
           [mkIssue "10" "issue" "Bug" (Some "me")] true true)
  = [EEcho "[...]"].
Proof.
  destruct (issues_one_event (λ _, "[...]") (λ _, "| Issue |")
              [mkIssue "10" "issue" "Bug" (Some "me")] true true)
    as (_ & _ & _ & _ & Hjson & _).
  apply Hjson; [discriminate | reflexivity].
Defined.

End IssuesMore.
